(** * RepoSense: file selection, language estimate, chunking and analysis

    A shallow embedding of [selectKeyFiles] and [estimateLanguages]
    (src/lib/fileSelector.ts), of the tool and code-quality flags of
    [aggregateAnalysis] (the analyzer module), and of [chunkContent],
    [callHuggingFaceAPI] and [analyzeWithHuggingFace] (the HuggingFace
    client module), with the properties of the selection budget, the tier
    order, the chunk partition, the language estimate and the requests of
    the client.

    Conventions of the embedding:
    - a JavaScript string is a [string]; one character stands for one
      UTF-16 code unit, so [String.length] is JavaScript's [.length];
    - a JavaScript number holding a size or a count is a [Z];
    - the closure [addFile] mutates [selectedFiles] and [totalSize]; here the
      two variables form a record that is passed in and returned;
    - [Array.prototype.sort] is stable; it is modelled by a stable insertion
      sort driven by the comparator's sign, which is what every stable sort
      returns for a consistent comparator;
    - [String.prototype.localeCompare] depends on the collation of the
      host; the selector takes it as a parameter;
    - a plain object used as a map keeps its own properties in insertion
      order; the properties that [extensionMap] inherits are written out
      where a lookup can reach them;
    - an asynchronous function of the client is the tree of its requests,
      waits and log lines, executed against the answers of the service.

    The definitions under a heading "Specification vocabulary" are not
    code of the repository: they name what the theorems speak about. *)

From Stdlib Require Import ZArith List String Ascii Bool Lia.
From Stdlib Require Import Permutation Sorted.
Import ListNotations.

Local Open Scope Z_scope.

(** ** The JavaScript primitives used by the two modules *)

Module JS.

(** [s.split(sep)] for a separator of one character. *)
Fixpoint split (sep : ascii) (s : string) : list string :=
  match s with
  | EmptyString => [EmptyString]
  | String c s' =>
      if Ascii.eqb c sep then EmptyString :: split sep s'
      else match split sep s' with
           | [] => [String c EmptyString]
           | piece :: pieces => String c piece :: pieces
           end
  end.

(** [parts.pop() || ''] on a freshly built array. *)
Definition popOrEmpty (parts : list string) : string :=
  List.last parts EmptyString.

(** [s.includes(sub)]. *)
Fixpoint includes (s sub : string) : bool :=
  String.prefix sub s ||
  match s with
  | EmptyString => false
  | String _ s' => includes s' sub
  end.

(** [s.length] as a number. *)
Definition strlen (s : string) : Z := Z.of_nat (String.length s).

(** [s.substring(0, n)]. *)
Definition substring0 (n : nat) (s : string) : string :=
  String.substring 0 n s.

(** [names.includes(name)] on an array of strings. *)
Definition arrayIncludes (names : list string) (name : string) : bool :=
  existsb (String.eqb name) names.

(** [xs.some(p)]. *)
Definition some {A : Type} (p : A -> bool) (xs : list A) : bool :=
  existsb p xs.

(** Number of occurrences of the character [c] in [s]. *)
Fixpoint countChar (c : ascii) (s : string) : nat :=
  match s with
  | EmptyString => 0%nat
  | String d s' => ((if Ascii.eqb d c then 1 else 0) + countChar c s')%nat
  end.

(** [xs.findIndex(p)], counting from [i]. *)
Fixpoint findIndexFrom {A : Type} (p : A -> bool) (i : Z) (xs : list A) : Z :=
  match xs with
  | [] => -1
  | x :: xs' => if p x then i else findIndexFrom p (i + 1) xs'
  end.

Definition findIndex {A : Type} (p : A -> bool) (xs : list A) : Z :=
  findIndexFrom p 0 xs.

(** [xs.sort(cmp)]: [x] goes before [y] when [cmp x y <= 0], and elements
    that compare equal keep their order. *)
Fixpoint insert {A : Type} (cmp : A -> A -> Z) (x : A) (xs : list A) : list A :=
  match xs with
  | [] => [x]
  | y :: xs' => if cmp x y <=? 0 then x :: xs else y :: insert cmp x xs'
  end.

Fixpoint sort {A : Type} (cmp : A -> A -> Z) (xs : list A) : list A :=
  match xs with
  | [] => []
  | x :: xs' => insert cmp x (sort cmp xs')
  end.

(** The order that a comparator stands for, and the two properties that
    make it a consistent comparator. *)
Definition le {A : Type} (cmp : A -> A -> Z) (a b : A) : Prop := cmp a b <= 0.

Definition total {A : Type} (cmp : A -> A -> Z) : Prop :=
  forall a b, cmp a b <= 0 \/ cmp b a <= 0.

Definition transitive {A : Type} (cmp : A -> A -> Z) : Prop :=
  forall a b c, cmp a b <= 0 -> cmp b c <= 0 -> cmp a c <= 0.

(** [xs.slice(0, n)]. *)
Definition slice0 {A : Type} (n : nat) (xs : list A) : list A := firstn n xs.

(** [s.lastIndexOf(c)] for a character [c]: the index of its last
    occurrence, or [-1]. The scan keeps the index [i] of the current
    character and the last index found. *)
Fixpoint lastIndexFrom (c : ascii) (i found : Z) (s : string) : Z :=
  match s with
  | EmptyString => found
  | String d s' => lastIndexFrom c (i + 1) (if Ascii.eqb d c then i else found) s'
  end.

Definition lastIndexOf (c : ascii) (s : string) : Z := lastIndexFrom c 0 (-1) s.

(** [s.substring(i)]: a negative [i] counts as [0]. *)
Fixpoint dropChars (n : nat) (s : string) : string :=
  match n, s with
  | O, _ => s
  | S _, EmptyString => EmptyString
  | S n', String _ s' => dropChars n' s'
  end.

Definition substringFrom (i : Z) (s : string) : string := dropChars (Z.to_nat i) s.

(** [s.toLowerCase()] on the code units below 256: the letters [A-Z] and
    the Latin-1 capitals (0xC0 to 0xDE, the sign 0xD7 apart) move up by
    32, every other code unit is kept. *)
Definition lowerChar (c : ascii) : ascii :=
  let n := N_of_ascii c in
  if ((65 <=? n) && (n <=? 90) || (192 <=? n) && (n <=? 222) && negb (n =? 215))%N
  then ascii_of_N (n + 32) else c.

Fixpoint toLowerCase (s : string) : string :=
  match s with
  | EmptyString => EmptyString
  | String c s' => String (lowerChar c) (toLowerCase s')
  end.

(** [s.startsWith(pre)] and [s.endsWith(suf)]. *)
Definition startsWith (s pre : string) : bool := String.prefix pre s.

Fixpoint endsWith (s suf : string) : bool :=
  String.eqb s suf ||
  match s with
  | EmptyString => false
  | String _ s' => endsWith s' suf
  end.

(** A plain object used as a map from strings, with its own properties in
    insertion order (no key here is an array index). *)
Definition Obj (V : Type) : Type := list (string * V).

(** The own property [key] of [obj], if any. *)
Fixpoint ownProperty {V : Type} (key : string) (obj : Obj V) : option V :=
  match obj with
  | [] => None
  | (k, v) :: rest => if String.eqb k key then Some v else ownProperty key rest
  end.

(** [obj[key] = v]: an existing property keeps its place, a new one goes
    last. *)
Fixpoint setProperty {V : Type} (key : string) (v : V) (obj : Obj V) : Obj V :=
  match obj with
  | [] => [(key, v)]
  | (k, w) :: rest =>
      if String.eqb k key then (k, v) :: rest else (k, w) :: setProperty key v rest
  end.

End JS.

(** ** src/types/analysis.ts *)

Inductive FileType : Type := TypeFile | TypeDir.

Record FileObject : Type := mkFile {
  path : string;
  content : string;
  size : Z;
  type : FileType
}.

Module ContentChunk.
Record t : Type := mk {
  content : string;
  fileCount : Z;
  totalSize : Z
}.
End ContentChunk.

Definition LF : ascii := "010"%char.

(** Sum of the [size] fields of a sequence of records. *)
Definition sumSize (fs : list FileObject) : Z :=
  fold_right (fun f acc => size f + acc) 0 fs.

(** Decidable equality of records, to compare selections by computation. *)
Definition typeEqb (a b : FileType) : bool :=
  match a, b with
  | TypeFile, TypeFile | TypeDir, TypeDir => true
  | _, _ => false
  end.

Definition fileEqb (a b : FileObject) : bool :=
  String.eqb (path a) (path b) && String.eqb (content a) (content b)
  && (size a =? size b) && typeEqb (type a) (type b).

Fixpoint filesEqb (l1 l2 : list FileObject) : bool :=
  match l1, l2 with
  | [], [] => true
  | a :: l1', b :: l2' => fileEqb a b && filesEqb l1' l2'
  | _, _ => false
  end.

(** Split of a path at ['/']: base name and depth, as the selector computes
    them in every filter and comparator. *)
Definition fileName (p : string) : string := JS.popOrEmpty (JS.split "/"%char p).
Definition depth (p : string) : Z := Z.of_nat (List.length (JS.split "/"%char p)).

(** ** src/lib/fileSelector.ts *)

Module FileSelector.

Definition MAX_FILE_SIZE : Z := 100 * 1024.
Definition MAX_TOTAL_CONTENT : Z := 50 * 1024.

Definition PRIORITY_1_FILES : list string :=
  ["README.md"; "README.txt"; "README"; "CONTRIBUTING.md"; "LICENSE";
   "LICENSE.md"; "LICENSE.txt"]%string.

Definition PRIORITY_2_PATTERNS : list string :=
  ["package.json"; "tsconfig.json"; "next.config.js"; "next.config.mjs";
   "tailwind.config.js"; "tailwind.config.ts"; ".eslintrc"; ".eslintrc.js";
   ".eslintrc.json"; "eslint.config.js"; ".prettierrc"; ".prettierrc.js";
   ".prettierrc.json"; "jest.config.js"; "jest.config.ts"; "Dockerfile";
   "docker-compose.yml"; ".env.example"; ".gitignore"; "vite.config.js";
   "vite.config.ts"; "webpack.config.js"]%string.

Definition ENTRY_POINT_PATTERNS : list string :=
  ["index.ts"; "index.js"; "main.ts"; "main.js"; "app.ts"; "app.js";
   "server.ts"; "server.js"]%string.

Definition PRIORITY_DIRECTORIES : list string :=
  ["/src/"; "/lib/"; "/app/"; "/components/"; "/pages/"; "/api/"]%string.

(** The marker appended to a truncated file: a line feed, then
    [... (truncated)]. *)
Definition TRUNCATION_MARKER : string := String LF "... (truncated)".

(** The two variables captured by [addFile]. *)
Record Selection : Type := mkSelection {
  selectedFiles : list FileObject;
  totalSize : Z
}.

Definition emptySelection : Selection := mkSelection [] 0.

(** The record pushed for a file over [MAX_FILE_SIZE]: a copy of [file] with
    [content] and [size] replaced. *)
Definition truncated (file : FileObject) : FileObject :=
  let truncatedContent :=
    (JS.substring0 (Z.to_nat MAX_FILE_SIZE) (content file) ++ TRUNCATION_MARKER)%string in
  {| path := path file;
     content := truncatedContent;
     size := JS.strlen truncatedContent;
     type := type file |}.

(** [addFile]: the new values of the captured variables and the returned
    boolean. *)
Definition addFile (st : Selection) (file : FileObject) : Selection * bool :=
  if size file >? MAX_FILE_SIZE then
    let pushed := truncated file in
    let total := totalSize st + size pushed in
    (mkSelection (selectedFiles st ++ [pushed]) total, total <? MAX_TOTAL_CONTENT)
  else if totalSize st + size file >? MAX_TOTAL_CONTENT then
    (st, false)
  else
    (mkSelection (selectedFiles st ++ [file]) (totalSize st + size file), true).

(** [for (const file of candidates) { if (!addFile(file)) break; }] *)
Fixpoint addEach (st : Selection) (candidates : list FileObject) : Selection :=
  match candidates with
  | [] => st
  | file :: rest =>
      let (st', ok) := addFile st file in
      if ok then addEach st' rest else st'
  end.

(** [selectedFiles.some(sf => sf.path === p)]. *)
Definition alreadySelected (p : string) (selected : list FileObject) : bool :=
  JS.some (fun sf => String.eqb (path sf) p) selected.

(** [f => !selectedFiles.some(sf => sf.path === f.path)]. *)
Definition notSelected (selected : list FileObject) (f : FileObject) : bool :=
  negb (alreadySelected (path f) selected).

(** The loop of the source-directory tier, with its counter. *)
Fixpoint addSourceFiles (st : Selection) (sourceFileCount : Z)
    (candidates : list FileObject) : Selection :=
  match candidates with
  | [] => st
  | file :: rest =>
      if sourceFileCount >=? 20 then st
      else if alreadySelected (path file) (selectedFiles st) then
        addSourceFiles st sourceFileCount rest
      else
        let (st', ok) := addFile st file in
        if ok then addSourceFiles st' (sourceFileCount + 1) rest else st'
  end.

Definition isPriority1 (f : FileObject) : bool :=
  JS.arrayIncludes PRIORITY_1_FILES (fileName (path f)).

Definition isPriority2 (f : FileObject) : bool :=
  JS.arrayIncludes PRIORITY_2_PATTERNS (fileName (path f)).

Definition isEntryPoint (f : FileObject) : bool :=
  JS.arrayIncludes ENTRY_POINT_PATTERNS (fileName (path f)).

Definition inPriorityDirectory (f : FileObject) : bool :=
  JS.some (fun dir => JS.includes (path f) dir) PRIORITY_DIRECTORIES.

Definition dirIndex (f : FileObject) : Z :=
  JS.findIndex (fun dir => JS.includes (path f) dir) PRIORITY_DIRECTORIES.

(** Comparator of the entry-point tier. *)
Definition byDepth (a b : FileObject) : Z :=
  let aDepth := depth (path a) in
  let bDepth := depth (path b) in
  aDepth - bDepth.

(** Comparator of the source-directory tier. *)
Definition byDirectoryThenDepth (a b : FileObject) : Z :=
  let aDirIndex := dirIndex a in
  let bDirIndex := dirIndex b in
  if negb (aDirIndex =? bDirIndex) then aDirIndex - bDirIndex
  else depth (path a) - depth (path b).

Definition priority1 (files : list FileObject) : list FileObject :=
  filter isPriority1 files.

Definition priority2 (files : list FileObject) : list FileObject :=
  filter isPriority2 files.

Definition entryPoints (files : list FileObject) : list FileObject :=
  JS.sort byDepth (filter isEntryPoint files).

Definition sourceFiles (files : list FileObject) : list FileObject :=
  JS.sort byDirectoryThenDepth (filter inPriorityDirectory files).

(** *** Specification vocabulary for the selector *)

(** The running total is the sum of the sizes selected so far. *)
Definition consistent (st : Selection) : Prop :=
  totalSize st = sumSize (selectedFiles st).

(** [addFile] rejects [f] in the state [st]: [f] is not over the per-file
    cap and would carry the total over the aggregate cap. *)
Definition rejects (st : Selection) (f : FileObject) : Prop :=
  size f <= MAX_FILE_SIZE /\ totalSize st + size f > MAX_TOTAL_CONTENT.

(** The most that one truncated record adds to the total. *)
Definition TRUNCATED_MAX : Z := MAX_FILE_SIZE + JS.strlen TRUNCATION_MARKER.

(** The paths of the records selected so far. *)
Definition selectedPaths (st : Selection) : list string :=
  map path (selectedFiles st).

(** The base name of the path [p] is one of [names]. *)
Definition nameIn (names : list string) (p : string) : bool :=
  JS.arrayIncludes names (fileName p).

(** The path [a] occurs strictly before the path [b] in [paths]. *)
Definition appearsBefore (a b : string) (paths : list string) : Prop :=
  exists l1 l2 l3, paths = l1 ++ a :: l2 ++ b :: l3.

(** The input fits the budget as a whole: distinct paths, no negative
    size, and a total size within the aggregate cap. *)
Definition fits (files : list FileObject) : Prop :=
  NoDup (map path files) /\
  Forall (fun f => 0 <= size f) files /\
  sumSize files <= MAX_TOTAL_CONTENT.

(** The selection [st] is made of records of [files], each path once, and
    its running total is right. *)
Definition within (files : list FileObject) (st : Selection) : Prop :=
  consistent st /\ NoDup (selectedPaths st) /\ incl (selectedFiles st) files.

(** What a run selects when every candidate is taken: the three tiers
    that go by base name, the first 20 new source files, and the fallback
    pass if fewer than 5 files were selected. *)
Definition namedTiers (files : list FileObject) : list FileObject :=
  priority1 files ++ priority2 files ++ entryPoints files.

Definition sourceTier (files : list FileObject) : list FileObject :=
  firstn 20 (filter (notSelected (namedTiers files)) (sourceFiles files)).

Definition fourTiers (files : list FileObject) : list FileObject :=
  namedTiers files ++ sourceTier files.

(** The record [r] is a record of [files], or the truncated copy of one
    that is over the per-file cap. *)
Definition fromInput (files : list FileObject) (r : FileObject) : Prop :=
  exists f, In f files /\ (r = f \/ (size f > MAX_FILE_SIZE /\ r = truncated f)).

(** The selection [st'] is [st] with more records appended. *)
Definition extends (st st' : Selection) : Prop :=
  exists more, selectedFiles st' = selectedFiles st ++ more.

(** The loop [addEach] runs through [candidates] without a [break]. *)
Fixpoint completes (st : Selection) (candidates : list FileObject) : bool :=
  match candidates with
  | [] => true
  | file :: rest =>
      let (st', ok) := addFile st file in
      ok && completes st' rest
  end.

(** The candidates on which [addEach] calls [addFile]. *)
Fixpoint evaluatedEach (st : Selection) (candidates : list FileObject)
    : list FileObject :=
  match candidates with
  | [] => []
  | file :: rest =>
      let (st', ok) := addFile st file in
      file :: (if ok then evaluatedEach st' rest else [])
  end.

(** The candidates on which [addSourceFiles] calls [addFile]. *)
Fixpoint evaluatedSourceFiles (st : Selection) (sourceFileCount : Z)
    (candidates : list FileObject) : list FileObject :=
  match candidates with
  | [] => []
  | file :: rest =>
      if sourceFileCount >=? 20 then []
      else if alreadySelected (path file) (selectedFiles st) then
        evaluatedSourceFiles st sourceFileCount rest
      else
        let (st', ok) := addFile st file in
        file :: (if ok then evaluatedSourceFiles st' (sourceFileCount + 1) rest else [])
  end.

(** The calls of [addFile] that [addEach] makes: the selection at the
    call and the candidate. *)
Fixpoint callsEach (st : Selection) (candidates : list FileObject)
    : list (Selection * FileObject) :=
  match candidates with
  | [] => []
  | file :: rest =>
      let (st', ok) := addFile st file in
      (st, file) :: (if ok then callsEach st' rest else [])
  end.

(** The calls of [addFile] that [addSourceFiles] makes. *)
Fixpoint callsSourceFiles (st : Selection) (sourceFileCount : Z)
    (candidates : list FileObject) : list (Selection * FileObject) :=
  match candidates with
  | [] => []
  | file :: rest =>
      if sourceFileCount >=? 20 then []
      else if alreadySelected (path file) (selectedFiles st) then
        callsSourceFiles st sourceFileCount rest
      else
        let (st', ok) := addFile st file in
        (st, file) :: (if ok then callsSourceFiles st' (sourceFileCount + 1) rest else [])
  end.

(** The call [addFile(f)] in the state [st] takes the last branch: [f] is
    appended as it is. *)
Definition accepts (st : Selection) (f : FileObject) : bool :=
  negb (size f >? MAX_FILE_SIZE) && negb (totalSize st + size f >? MAX_TOTAL_CONTENT).

(** The record [r] is the truncated copy of a file of [files] over the
    per-file cap, or a file of [files] strictly smaller than [f]. *)
Definition truncatedOrSmaller (files : list FileObject) (f r : FileObject) : Prop :=
  (exists g, In g files /\ size g > MAX_FILE_SIZE /\ r = truncated g) \/
  (In r files /\ size r < size f).

(** The selection [st'] is [st] with more records appended, each of them
    truncated or smaller than [f], and its total is not under that of [st]. *)
Definition appendedSince (files : list FileObject) (f : FileObject)
    (st st' : Selection) : Prop :=
  exists more,
    selectedFiles st' = selectedFiles st ++ more /\
    Forall (truncatedOrSmaller files f) more /\
    totalSize st <= totalSize st'.

Section WithCollation.

(** [String.prototype.localeCompare] depends on the host's collation; it is
    a parameter of the model. *)
Variable localeCompare : string -> string -> Z.

Definition byPath (a b : FileObject) : Z := localeCompare (path a) (path b).

Definition rootFiles (selected files : list FileObject) : list FileObject :=
  JS.slice0 20
    (JS.sort byPath
       (filter (fun f => depth (path f) <=? 2)
          (filter (notSelected selected) files))).

(** The selection after each tier. *)
Definition afterPriority1 (files : list FileObject) : Selection :=
  addEach emptySelection (priority1 files).

Definition afterPriority2 (files : list FileObject) : Selection :=
  addEach (afterPriority1 files) (priority2 files).

Definition afterEntryPoints (files : list FileObject) : Selection :=
  addEach (afterPriority2 files) (entryPoints files).

Definition afterSourceFiles (files : list FileObject) : Selection :=
  addSourceFiles (afterEntryPoints files) 0 (sourceFiles files).

Definition afterRootFiles (files : list FileObject) : Selection :=
  let st := afterSourceFiles files in
  if Z.of_nat (List.length (selectedFiles st)) <? 5 then
    addEach st (rootFiles (selectedFiles st) files)
  else st.

Definition selectKeyFiles (files : list FileObject) : list FileObject :=
  selectedFiles (afterRootFiles files).

(** The fallback pass of a run in which every candidate is taken. *)
Definition fallbackPass (files : list FileObject) : list FileObject :=
  if Z.of_nat (List.length (fourTiers files)) <? 5 then
    rootFiles (fourTiers files) files
  else [].

(** The whole selection of such a run. *)
Definition fullSelection (files : list FileObject) : list FileObject :=
  fourTiers files ++ fallbackPass files.

(** Every candidate that a run of [selectKeyFiles] passes to [addFile], in
    order. *)
Definition evaluated (files : list FileObject) : list FileObject :=
  evaluatedEach emptySelection (priority1 files)
  ++ evaluatedEach (afterPriority1 files) (priority2 files)
  ++ evaluatedEach (afterPriority2 files) (entryPoints files)
  ++ evaluatedSourceFiles (afterEntryPoints files) 0 (sourceFiles files)
  ++ (let st := afterSourceFiles files in
      if Z.of_nat (List.length (selectedFiles st)) <? 5 then
        evaluatedEach st (rootFiles (selectedFiles st) files)
      else []).

(** Every call of [addFile] that a run of [selectKeyFiles] makes, in
    order, with the selection at the call. *)
Definition calls (files : list FileObject) : list (Selection * FileObject) :=
  callsEach emptySelection (priority1 files)
  ++ callsEach (afterPriority1 files) (priority2 files)
  ++ callsEach (afterPriority2 files) (entryPoints files)
  ++ callsSourceFiles (afterEntryPoints files) 0 (sourceFiles files)
  ++ (let st := afterSourceFiles files in
      if Z.of_nat (List.length (selectedFiles st)) <? 5 then
        callsEach st (rootFiles (selectedFiles st) files)
      else []).

(** The run takes every candidate that it passes to [addFile]: no call
    truncates and no call rejects. *)
Definition takesEveryCandidate (files : list FileObject) : bool :=
  forallb (fun call => accepts (fst call) (snd call)) (calls files).

End WithCollation.

(** *** [estimateLanguages] *)

Definition extensionMap : JS.Obj string :=
  [(".ts", "TypeScript"); (".tsx", "TypeScript"); (".js", "JavaScript");
   (".jsx", "JavaScript"); (".py", "Python"); (".go", "Go"); (".java", "Java");
   (".rb", "Ruby"); (".php", "PHP"); (".c", "C"); (".cpp", "C++"); (".cs", "C#");
   (".swift", "Swift"); (".kt", "Kotlin"); (".rs", "Rust"); (".scala", "Scala");
   (".html", "HTML"); (".css", "CSS"); (".scss", "SCSS"); (".sass", "Sass");
   (".vue", "Vue"); (".svelte", "Svelte")]%string.

(** What [extensionMap[ext]] evaluates to. [extensionMap] is an object
    literal, so besides its own properties it answers for the properties
    of [Object.prototype]; [ext] is in lower case, and the only names of
    [Object.prototype] in lower case are [constructor] and [__proto__]. *)
Inductive Looked : Type :=
  | OwnString (s : string)
  | ObjectFunction
  | ObjectPrototype
  | Undefined.

Definition extensionMapGet (ext : string) : Looked :=
  match JS.ownProperty ext extensionMap with
  | Some language => OwnString language
  | None =>
      if String.eqb ext "constructor" then ObjectFunction
      else if String.eqb ext "__proto__" then ObjectPrototype
      else Undefined
  end.

(** The text of [String(Object)], as V8 prints it. *)
Definition OBJECT_FUNCTION_TEXT : string := "function Object() { [native code] }".

(** The property key that [language] stands for in
    [languageCounts[language]], when [language] is truthy. *)
Definition languageKey (language : Looked) : option string :=
  match language with
  | OwnString s => if String.eqb s EmptyString then None else Some s
  | ObjectFunction => Some OBJECT_FUNCTION_TEXT
  | ObjectPrototype => Some "[object Object]"%string
  | Undefined => None
  end.

(** [file.path.substring(file.path.lastIndexOf('.')).toLowerCase()]. *)
Definition extension (p : string) : string :=
  JS.toLowerCase (JS.substringFrom (JS.lastIndexOf "."%char p) p).

(** [x || 0] on a count. *)
Definition orZero (x : option Z) : Z :=
  match x with
  | Some c => if c =? 0 then 0 else c
  | None => 0
  end.

(** The body of the loop over [files]. *)
Definition countLanguage (languageCounts : JS.Obj Z) (file : FileObject) : JS.Obj Z :=
  let ext := extension (path file) in
  let language := extensionMapGet ext in
  match languageKey language with
  | Some key =>
      JS.setProperty key (orZero (JS.ownProperty key languageCounts) + 1) languageCounts
  | None => languageCounts
  end.

Definition estimateLanguages (files : list FileObject) : list string :=
  map fst
    (JS.sort (fun a b : string * Z => snd b - snd a)
       (fold_left countLanguage files [])).

(** *** Specification vocabulary for [estimateLanguages] *)

(** The language that a path counts for, if any. *)
Definition languageOf (p : string) : option string :=
  languageKey (extensionMapGet (extension p)).

Definition countsFor (language : string) (f : FileObject) : bool :=
  match languageOf (path f) with
  | Some l => String.eqb l language
  | None => false
  end.

(** The number of files that count for [language]. *)
Definition countOf (language : string) (files : list FileObject) : Z :=
  Z.of_nat (List.length (filter (countsFor language) files)).

(** After the files [seen], the object holds the positive counts. *)
Definition counted (seen : list FileObject) (languageCounts : JS.Obj Z) : Prop :=
  NoDup (map fst languageCounts) /\
  forall k, JS.ownProperty k languageCounts =
            if countOf k seen =? 0 then None else Some (countOf k seen).

(** A collation to run the selector with: the order of the code units. *)
Definition codeUnitCompare (a b : string) : Z :=
  match String.compare a b with
  | Lt => -1
  | Eq => 0
  | Gt => 1
  end.

End FileSelector.

(** ** The analyzer module: parts of [aggregateAnalysis]

    [aggregateAnalysis] builds one record from several independent
    computations on [files]; the ones below are those of [tools] and of
    the [codeQuality] flags [hasTypeScript] and [hasLinting]. *)

Module Analyzer.

(** [files.map(f => f.path.split('/').pop() || '')]. *)
Definition fileNames (files : list FileObject) : list string :=
  map (fun f => fileName (path f)) files.

(** The array [tools] after the five conditional pushes. *)
Definition tools (files : list FileObject) : list string :=
  let fileNames := fileNames files in
  (if JS.some (fun n => JS.startsWith n ".eslintrc" || String.eqb n "eslint.config.js")
        fileNames
   then ["ESLint"%string] else [])
  ++ (if JS.some (fun n => JS.startsWith n ".prettierrc") fileNames
      then ["Prettier"%string] else [])
  ++ (if JS.some (fun n => JS.includes n "jest.config") fileNames
      then ["Jest"%string] else [])
  ++ (if JS.some (fun n => String.eqb n "Dockerfile") fileNames
      then ["Docker"%string] else [])
  ++ (if JS.some (fun n => String.eqb n "docker-compose.yml") fileNames
      then ["Docker Compose"%string] else []).

Definition hasTypeScript (files : list FileObject) : bool :=
  JS.some (fun f => JS.endsWith (path f) ".ts" || JS.endsWith (path f) ".tsx") files.

Definition hasLinting (files : list FileObject) : bool :=
  JS.some (fun n => JS.startsWith n ".eslintrc" || String.eqb n "eslint.config.js")
    (fileNames files).

(** The five tools that [tools] can hold, in the order of the pushes. *)
Definition KNOWN_TOOLS : list string :=
  ["ESLint"; "Prettier"; "Jest"; "Docker"; "Docker Compose"]%string.

End Analyzer.

(** ** The HuggingFace client module: [chunkContent] *)

Module HuggingFace.

Definition MAX_CHUNK_TOKENS : Z := 4000.
Definition CHARS_PER_TOKEN : Z := 4.

Definition maxChunkSize : Z := MAX_CHUNK_TOKENS * CHARS_PER_TOKEN.

(** The template literal [=== ${file.path} ===\n${file.content}\n\n]. *)
Definition fileContent (file : FileObject) : string :=
  ("=== " ++ path file ++ " ===" ++
   String LF (content file ++ String LF (String LF EmptyString)))%string.

(** The variables of the loop. *)
Record Buffer : Type := mkBuffer {
  chunks : list ContentChunk.t;
  currentChunk : string;
  currentFileCount : Z;
  currentSize : Z
}.

Definition emptyBuffer : Buffer := mkBuffer [] EmptyString 0 0.

(** [chunks.push({content: currentChunk, fileCount: ..., totalSize: ...})]
    followed by the reset of the three accumulators. *)
Definition flush (b : Buffer) : Buffer :=
  mkBuffer
    (chunks b ++ [ContentChunk.mk (currentChunk b) (currentFileCount b) (currentSize b)])
    EmptyString 0 0.

(** One iteration of [for (const file of files)]. *)
Definition step (b : Buffer) (file : FileObject) : Buffer :=
  let fileContent := fileContent file in
  let b1 :=
    if (JS.strlen (currentChunk b) + JS.strlen fileContent >? maxChunkSize)
       && (JS.strlen (currentChunk b) >? 0)
    then flush b else b in
  mkBuffer (chunks b1)
    (currentChunk b1 ++ fileContent)%string
    (currentFileCount b1 + 1)
    (currentSize b1 + size file).

(** The code after the loop: the last chunk, if it has content. *)
Definition finish (b : Buffer) : list ContentChunk.t :=
  if JS.strlen (currentChunk b) >? 0 then chunks (flush b) else chunks b.

Definition chunkContent (files : list FileObject) : list ContentChunk.t :=
  finish (fold_left step files emptyBuffer).

(** *** Specification vocabulary for the chunker *)

(** The text of a group of files: their rendered blocks, in order. *)
Fixpoint render (group : list FileObject) : string :=
  match group with
  | [] => EmptyString
  | f :: rest => (fileContent f ++ render rest)%string
  end.

(** The chunk that a group of files stands for. *)
Definition chunkOf (group : list FileObject) : ContentChunk.t :=
  ContentChunk.mk (render group) (Z.of_nat (List.length group)) (sumSize group).

(** The test made before a file joins the buffer, on the files [cur] that
    the buffer holds. *)
Definition startsNewChunk (cur : list FileObject) (f : FileObject) : bool :=
  (JS.strlen (render cur) + JS.strlen (fileContent f) >? maxChunkSize)
  && (JS.strlen (render cur) >? 0).

(** The groups of files that the loop forms when the buffer holds [cur]
    and [files] remain. *)
Fixpoint groupsFrom (cur files : list FileObject) : list (list FileObject) :=
  match files with
  | [] => match cur with [] => [] | _ :: _ => [cur] end
  | f :: rest =>
      if startsNewChunk cur f then cur :: groupsFrom [f] rest
      else groupsFrom (cur ++ [f]) rest
  end.

Definition groups (files : list FileObject) : list (list FileObject) :=
  groupsFrom [] files.

(** The buffer [b] holds exactly the files [cur]. *)
Definition holds (b : Buffer) (cur : list FileObject) : Prop :=
  currentChunk b = render cur /\
  currentFileCount b = Z.of_nat (List.length cur) /\
  currentSize b = sumSize cur.

(** A group is under the ceiling unless it is a single file. *)
Definition fitsUnlessAlone (g : list FileObject) : Prop :=
  (2 <= List.length g)%nat -> JS.strlen (render g) <= maxChunkSize.

(** Sum of the [fileCount] fields of a sequence of chunks. *)
Definition sumFileCount (cs : list ContentChunk.t) : Z :=
  fold_right (fun c acc => ContentChunk.fileCount c + acc) 0 cs.

(** The contents of a sequence of chunks, one after the other. *)
Definition joinContents (cs : list ContentChunk.t) : string :=
  fold_right (fun c acc => (ContentChunk.content c ++ acc)%string) EmptyString cs.

(** Sum of the [totalSize] fields of a sequence of chunks. *)
Definition sumTotalSize (cs : list ContentChunk.t) : Z :=
  fold_right (fun c acc => ContentChunk.totalSize c + acc) 0 cs.

(** A partition into groups that the chunker could have formed: no group
    is empty, and a group of two or more files is under the ceiling. *)
Definition admissible (gs : list (list FileObject)) : Prop :=
  Forall (fun g => g <> [] /\ fitsUnlessAlone g) gs.

(** A file whose rendered block alone is over the ceiling. *)
Definition oversized (f : FileObject) : Prop :=
  JS.strlen (fileContent f) > maxChunkSize.

End HuggingFace.

(** ** The HuggingFace client module: [callHuggingFaceAPI] and
    [analyzeWithHuggingFace]

    The two functions are asynchronous: they post requests, wait, log, and
    go on according to what the service answers. A run of such a function
    is a tree of these actions, [Run]; [run] executes it against the
    answers of the service.

    The body of an answer is untyped ([response.data] is [any]). The values
    of the language and the operations that the client applies to them are
    the fields of [Runtime]; the client is written against this interface,
    and its properties hold for every runtime. *)

Module HuggingFaceAPI.

Class Runtime (Value : Type) : Type := {
  (** a string literal, a number literal, [undefined] *)
  ofString : string -> Value;
  ofNumber : Z -> Value;
  undefined : Value;
  (** [Array.isArray(v)] *)
  isArray : Value -> bool;
  (** [typeof v === 'string'] *)
  isString : Value -> bool;
  (** [v === null || v === undefined] *)
  nullish : Value -> bool;
  (** the conversion of [v] to a boolean by [if], [!] and [||] *)
  truthy : Value -> bool;
  (** the property [v[k]] of a value that is not nullish *)
  get : Value -> string -> Value;
  (** [v < w] *)
  lessThan : Value -> Value -> bool
}.

(** [error.response] of a rejected request. *)
Record Response (Value : Type) : Type := mkResponse {
  status : Z;
  data : Value
}.
Arguments mkResponse {Value}.
Arguments status {Value}.
Arguments data {Value}.

(** What [await axios.post(...)] gives: a response, of which the client
    reads [data] only, or an error thrown, with or without a [response]. *)
Inductive Outcome (Value : Type) : Type :=
| Resolved (data : Value)
| Rejected (response : option (Response Value)).
Arguments Resolved {Value}.
Arguments Rejected {Value}.

(** The runs. Apart from the key and the prompt a request is constant: the
    URL of the model, [max_new_tokens: 500], [temperature: 0.7],
    [return_full_text: false] and a timeout of 60 seconds. *)
Inductive Run (Value A : Type) : Type :=
| Return (a : A)
| Throw (message : string)
| Post (apiKey prompt : string) (next : Outcome Value -> Run Value A)
| Wait (seconds : Value) (next : Run Value A)
| ConsoleError (text message : string) (next : Run Value A).
Arguments Return {Value A}.
Arguments Throw {Value A}.
Arguments Post {Value A}.
Arguments Wait {Value A}.
Arguments ConsoleError {Value A}.

(** [try { const a = await p; ok(a) } catch (error) { failed(error) }],
    where [ok] itself does not throw inside the [try]. *)
Fixpoint tryCatch {Value A B : Type} (p : Run Value A)
    (ok : A -> Run Value B) (failed : string -> Run Value B) : Run Value B :=
  match p with
  | Return a => ok a
  | Throw message => failed message
  | Post apiKey prompt next => Post apiKey prompt (fun o => tryCatch (next o) ok failed)
  | Wait seconds next => Wait seconds (tryCatch next ok failed)
  | ConsoleError text message next => ConsoleError text message (tryCatch next ok failed)
  end.

Definition NOT_CONFIGURED : string := "HuggingFace API key not configured".
Definition MODEL_UNAVAILABLE : string :=
  "AI model unavailable. Please try again in a few minutes.".
Definition TEMPORARILY_UNAVAILABLE : string :=
  "Analysis service temporarily unavailable. Please try again later.".
Definition CONFIGURATION_ERROR : string := "Analysis service configuration error".
Definition SERVICE_UNAVAILABLE : string := "Analysis service unavailable".
Definition SECTION_UNAVAILABLE : string := "Analysis unavailable for this section.".

(** The line break of a template literal. *)
Definition NEWLINE : string := String LF EmptyString.

(** The template literal of the prompt. *)
Definition prompt (chunk : ContentChunk.t) : string :=
  ("Analyze this code repository content and provide insights:" ++ NEWLINE ++
   NEWLINE ++
   "Repository files:" ++ NEWLINE ++
   ContentChunk.content chunk ++ NEWLINE ++
   NEWLINE ++
   "Please identify:" ++ NEWLINE ++
   "1. Primary programming language and frameworks" ++ NEWLINE ++
   "2. Project structure and organization" ++ NEWLINE ++
   "3. Key entry points and important files" ++ NEWLINE ++
   "4. Code patterns and architectural decisions" ++ NEWLINE ++
   "5. Dependencies and tools used" ++ NEWLINE ++
   NEWLINE ++
   "Response format: Concise bullet points.")%string.

Section WithRuntime.

Context {Value : Type} {runtime : Runtime Value}.

(** [a || b]. *)
Definition orElse (a b : Value) : Value := if truthy a then a else b.

(** [v?.k]. *)
Definition optional (v : Value) (k : string) : Value :=
  if nullish v then undefined else get v k.

(** [v.k]; [None] is the [TypeError] of a nullish [v]. *)
Definition member (v : Value) (k : string) : option Value :=
  if nullish v then None else Some (get v k).

(** The text of a first response: the three formats and the default. *)
Definition generatedText (data : Value) : option Value :=
  if isArray data then
    Some (orElse (optional (get data "0") "generated_text") (ofString EmptyString))
  else
    match member data "generated_text" with
    | None => None
    | Some text =>
        if truthy text then Some text
        else if isString data then Some data
        else Some (ofString EmptyString)
    end.

(** The text of the response to the retry: two formats and the default. *)
Definition retryGeneratedText (data : Value) : option Value :=
  if isArray data then
    Some (orElse (optional (get data "0") "generated_text") (ofString EmptyString))
  else
    match member data "generated_text" with
    | None => None
    | Some text => if truthy text then Some text else Some (ofString EmptyString)
    end.

(** The inner [try] and its [catch]. *)
Definition retried (retry : Outcome Value) : Run Value Value :=
  match retry with
  | Resolved data =>
      match retryGeneratedText data with
      | Some text => Return text
      | None => Throw MODEL_UNAVAILABLE
      end
  | Rejected _ => Throw MODEL_UNAVAILABLE
  end.

(** The outer [catch]; [response] is [error.response], which the
    [TypeError] of the [try] block does not have. *)
Definition caught (apiKey prompt : string) (response : option (Response Value))
    : Run Value Value :=
  match response with
  | Some r =>
      if status r =? 503 then
        let estimatedTime := orElse (optional (data r) "estimated_time") (ofNumber 20) in
        if lessThan estimatedTime (ofNumber 30) then
          Wait estimatedTime (Post apiKey prompt retried)
        else Throw MODEL_UNAVAILABLE
      else if status r =? 429 then Throw TEMPORARILY_UNAVAILABLE
      else if (status r =? 401) || (status r =? 403) then Throw CONFIGURATION_ERROR
      else Throw SERVICE_UNAVAILABLE
  | None => Throw SERVICE_UNAVAILABLE
  end.

(** The outer [try]. *)
Definition attempted (apiKey prompt : string) (first : Outcome Value)
    : Run Value Value :=
  match first with
  | Resolved data =>
      match generatedText data with
      | Some text => Return text
      | None => caught apiKey prompt None
      end
  | Rejected response => caught apiKey prompt response
  end.

(** [environment] is [process.env.HUGGINGFACE_API_KEY]. *)
Definition callHuggingFaceAPI (environment : option string) (prompt : string)
    : Run Value Value :=
  match environment with
  | None => Throw NOT_CONFIGURED
  | Some apiKey =>
      if String.eqb apiKey EmptyString then Throw NOT_CONFIGURED
      else Post apiKey prompt (attempted apiKey prompt)
  end.

(** The loop of [analyzeWithHuggingFace], from the chunks still to
    analyze and the array [responses]. *)
Fixpoint analyzeFrom (environment : option string) (chunks : list ContentChunk.t)
    (responses : list Value) : Run Value (list Value) :=
  match chunks with
  | [] => Return responses
  | chunk :: rest =>
      tryCatch (callHuggingFaceAPI environment (prompt chunk))
        (fun response =>
           analyzeFrom environment rest
             (if truthy response then responses ++ [response] else responses))
        (fun error =>
           ConsoleError "Failed to analyze chunk:" error
             (analyzeFrom environment rest (responses ++ [ofString SECTION_UNAVAILABLE])))
  end.

Definition analyzeWithHuggingFace (environment : option string)
    (chunks : list ContentChunk.t) : Run Value (list Value) :=
  analyzeFrom environment chunks [].

(** *** Specification vocabulary *)

(** A run executed against the service: [answers n] is what the service
    answers to the request number [n]. The result is the value returned or
    the message of the error thrown, with the requests made, in order. *)
Fixpoint run {A : Type} (answers : nat -> Outcome Value) (n : nat) (r : Run Value A)
    : (string + A) * list (string * string) :=
  match r with
  | Return a => (inr a, [])
  | Throw message => (inl message, [])
  | Post apiKey prompt next =>
      let (result, requests) := run answers (S n) (next (answers n)) in
      (result, (apiKey, prompt) :: requests)
  | Wait _ next => run answers n next
  | ConsoleError _ _ next => run answers n next
  end.

(** The messages of the errors of [callHuggingFaceAPI]. *)
Definition ERROR_MESSAGES : list string :=
  [NOT_CONFIGURED; MODEL_UNAVAILABLE; TEMPORARILY_UNAVAILABLE; CONFIGURATION_ERROR;
   SERVICE_UNAVAILABLE].

(** The first answer asks to wait: status 503. *)
Definition modelLoading (first : Outcome Value) : Prop :=
  exists r, first = Rejected (Some r) /\ status r = 503.

(** The key is configured: the variable is set and is not the empty string. *)
Definition configured (environment : option string) : bool :=
  match environment with
  | Some apiKey => negb (String.eqb apiKey EmptyString)
  | None => false
  end.

End WithRuntime.

End HuggingFaceAPI.

(** ** Concrete inputs *)

Module Examples.

(** A content of [n] characters. *)
Definition fill (n : nat) : string := string_of_list_ascii (repeat "a"%char n).

(** A well-formed record: its [size] is the length of its content. *)
Definition file (p : string) (n : Z) : FileObject :=
  mkFile p (fill (Z.to_nat n)) n TypeFile.

(** Chunker: a small file, a file of 16000 characters, a small file. *)
Definition smallA : FileObject := file "a.txt" 5.
Definition big : FileObject := file "big.txt" 16000.
Definition smallB : FileObject := file "b.txt" 7.

(** Selector: a rejection in the documentation tier, then a configuration
    file that fits. *)
Definition readme40k : FileObject := file "README.md" 40000.
Definition license20k : FileObject := file "LICENSE" 20000.
Definition packageJson : FileObject := file "package.json" 1000.
Definition rejectionThenFit : list FileObject := [readme40k; license20k; packageJson].

(** Selector: files just over the per-file cap, one for each pass. *)
Definition bigReadme : FileObject := file "README.md" 102401.
Definition bigPackage : FileObject := file "package.json" 102401.
Definition bigIndex : FileObject := file "index.js" 102401.
Definition bigSource : FileObject := file "web/src/x.ts" 102401.
Definition bigNotes : FileObject := file "notes.txt" 102401.
Definition twoBig : list FileObject := [bigReadme; bigPackage].
Definition fiveBig : list FileObject :=
  [bigReadme; bigPackage; bigIndex; bigSource; bigNotes].

(** Selector: two documentation files over the per-file cap; the second
    one lies too deep for the fallback pass. *)
Definition bigNestedReadme : FileObject := file "docs/guide/README.md" 102401.
Definition twoBigReadmes : list FileObject := [bigReadme; bigNestedReadme].

(** Selector: an entry point too large for the budget ahead of the
    root-level [index.js] and of a nested one. *)
Definition mainJs : FileObject := file "main.js" 60000.
Definition indexJs : FileObject := file "index.js" 10.
Definition nestedIndexJs : FileObject := file "src/app/index.js" 10.
Definition shadowedIndex : list FileObject := [mainJs; indexJs; nestedIndexJs].
Definition nestedFirst : list FileObject := [nestedIndexJs; indexJs].

(** Selector: a rejection in the documentation tier leaves
    [CONTRIBUTING.md] to the fallback pass. *)
Definition deepLicense : FileObject := file "docs/legal/LICENSE" 20000.

(** Selector: the same, with enough documentation files at the root to
    make the second selection skip its fallback pass. *)
Definition cutShortWide : list FileObject :=
  [readme40k; deepLicense; file "README.txt" 10; file "README" 10;
   file "CONTRIBUTING.md" 10; file "LICENSE.md" 10; file "todo.txt" 10].

(** Selector: three small files at the root and a large data file that no
    pass looks at; the sizes sum to more than the aggregate cap. *)
Definition withDeepData : list FileObject :=
  [file "README.md" 3000; file "package.json" 800; file "index.js" 500;
   file "data/raw/2024/dump.csv" 90000].

(** Selector: an input that fits the budget as a whole, with a file for
    each pass. *)
Definition fitting : list FileObject :=
  [file "notes.txt" 2; nestedIndexJs; file "web/src/x.ts" 3; indexJs;
   file "package.json" 7; file "README.md" 5].

(** Values for the examples of the client: [undefined], [null], integers,
    strings, arrays and objects with own properties only. [get] knows the
    index 0 of an array, and [lessThan] compares two numbers. *)
#[warnings="-register-all"]
Inductive Json : Type :=
| JUndefined
| JNull
| JNumber (n : Z)
| JString (s : string)
| JArray (items : list Json)
| JObject (fields : JS.Obj Json).

#[export] Instance jsonRuntime : HuggingFaceAPI.Runtime Json := {|
  HuggingFaceAPI.ofString := JString;
  HuggingFaceAPI.ofNumber := JNumber;
  HuggingFaceAPI.undefined := JUndefined;
  HuggingFaceAPI.isArray v := match v with JArray _ => true | _ => false end;
  HuggingFaceAPI.isString v := match v with JString _ => true | _ => false end;
  HuggingFaceAPI.nullish v := match v with JUndefined | JNull => true | _ => false end;
  HuggingFaceAPI.truthy v :=
    match v with
    | JUndefined | JNull => false
    | JNumber n => negb (n =? 0)
    | JString s => negb (String.eqb s EmptyString)
    | JArray _ | JObject _ => true
    end;
  HuggingFaceAPI.get v k :=
    match v with
    | JObject fields =>
        match JS.ownProperty k fields with Some x => x | None => JUndefined end
    | JArray items => if String.eqb k "0" then hd JUndefined items else JUndefined
    | _ => JUndefined
    end;
  HuggingFaceAPI.lessThan v w :=
    match v, w with
    | JNumber a, JNumber b => a <? b
    | _, _ => false
    end
|}.

(** The service is loading the model, then answers with a generated text. *)
Definition loadingThenText (n : nat) : HuggingFaceAPI.Outcome Json :=
  match n with
  | O => HuggingFaceAPI.Rejected
           (Some (HuggingFaceAPI.mkResponse 503 (JObject [("error"%string, JString "loading")])))
  | _ => HuggingFaceAPI.Resolved
           (JArray [JObject [("generated_text"%string, JString "- TypeScript")]])
  end.

(** Two chunks of one small file each. *)
Definition twoChunks : list ContentChunk.t :=
  [ContentChunk.mk "=== a ===" 1 5; ContentChunk.mk "=== b ===" 1 5].

End Examples.

(** * Proofs *)

(** ** Strings and lists *)

Lemma length_append (s1 s2 : string) :
  String.length (s1 ++ s2) = (String.length s1 + String.length s2)%nat.
Proof. induction s1 as [|c s1 IH]; simpl; [reflexivity | now rewrite IH]. Qed.

Lemma append_nil_r (s : string) : (s ++ EmptyString)%string = s.
Proof. induction s as [|c s IH]; simpl; [reflexivity | now rewrite IH]. Qed.

Lemma append_assoc (s1 s2 s3 : string) :
  ((s1 ++ s2) ++ s3)%string = (s1 ++ (s2 ++ s3))%string.
Proof. induction s1 as [|c s1 IH]; simpl; [reflexivity | now rewrite IH]. Qed.

Lemma length_substring0 (n : nat) (s : string) :
  String.length (JS.substring0 n s) = Nat.min n (String.length s).
Proof.
  unfold JS.substring0. revert s.
  induction n as [|n IH]; intros [|c s]; simpl; try reflexivity.
  now rewrite IH.
Qed.

Lemma fileEqb_eq (a b : FileObject) : fileEqb a b = true -> a = b.
Proof.
  unfold fileEqb. intros H.
  apply andb_prop in H as [H Ht]. apply andb_prop in H as [H Hs].
  apply andb_prop in H as [Hp Hc].
  apply String.eqb_eq in Hp, Hc. apply Z.eqb_eq in Hs.
  destruct a as [pa ca sa ta], b as [pb cb sb tb]; simpl in *. subst.
  destruct ta, tb; try discriminate; reflexivity.
Qed.

Lemma filesEqb_eq (l1 l2 : list FileObject) : filesEqb l1 l2 = true -> l1 = l2.
Proof.
  revert l2. induction l1 as [|a l1 IH]; intros [|b l2] H; try discriminate;
    [reflexivity|].
  simpl in H. apply andb_prop in H as [Hab H].
  now rewrite (fileEqb_eq a b Hab), (IH l2 H).
Qed.

Lemma existsb_fileEqb_In (x : FileObject) (l : list FileObject) :
  existsb (fileEqb x) l = true -> In x l.
Proof.
  intros H. apply existsb_exists in H as (y & Hy & Hxy).
  now rewrite (fileEqb_eq x y Hxy).
Qed.

(** Equalities between concrete selections are decided by evaluation. *)
Ltac files_by_computation :=
  lazymatch goal with
  | |- In _ _ => apply existsb_fileEqb_In; vm_compute; reflexivity
  | |- @eq (list FileObject) _ _ => apply filesEqb_eq; vm_compute; reflexivity
  | |- _ => vm_compute; reflexivity
  end.

Lemma sumSize_app (l1 l2 : list FileObject) :
  sumSize (l1 ++ l2) = sumSize l1 + sumSize l2.
Proof. induction l1 as [|f l1 IH]; simpl; [reflexivity | rewrite IH; lia]. Qed.

(** ** Sorting with a comparator *)

Section Sorting.
Variable A : Type.
Variable cmp : A -> A -> Z.

Lemma insert_perm (x : A) (l : list A) : Permutation (JS.insert cmp x l) (x :: l).
Proof.
  induction l as [|y l IH]; simpl; [reflexivity|].
  destruct (cmp x y <=? 0); [reflexivity|].
  rewrite IH. apply perm_swap.
Qed.

Lemma sort_perm (l : list A) : Permutation (JS.sort cmp l) l.
Proof.
  induction l as [|x l IH]; simpl; [reflexivity|].
  now rewrite insert_perm, IH.
Qed.

Lemma sort_In (x : A) (l : list A) : In x (JS.sort cmp l) <-> In x l.
Proof.
  split; apply Permutation_in; [|symmetry]; apply sort_perm.
Qed.



Hypothesis cmp_total : JS.total cmp.

Lemma insert_Sorted (x : A) (l : list A) :
  Sorted (JS.le cmp) l -> Sorted (JS.le cmp) (JS.insert cmp x l).
Proof.
  induction 1 as [|y l Hs IH Hhd]; simpl; [repeat constructor|].
  destruct (Z.leb_spec (cmp x y) 0) as [Hxy|Hxy].
  - repeat constructor; assumption.
  - constructor; [assumption|].
    destruct l as [|z l]; simpl.
    + constructor. destruct (cmp_total x y); [lia | assumption].
    + destruct (Z.leb_spec (cmp x z) 0).
      * constructor. destruct (cmp_total x y); [lia | assumption].
      * constructor. now apply HdRel_inv in Hhd.
Qed.

Lemma sort_Sorted (l : list A) : Sorted (JS.le cmp) (JS.sort cmp l).
Proof.
  induction l as [|x l IH]; simpl; [constructor | now apply insert_Sorted].
Qed.

Hypothesis cmp_trans : JS.transitive cmp.

Lemma sort_StronglySorted (l : list A) : StronglySorted (JS.le cmp) (JS.sort cmp l).
Proof.
  apply Sorted_StronglySorted; [|apply sort_Sorted].
  intros a b c. apply cmp_trans.
Qed.



End Sorting.



(** ** The chunker *)

Section Chunker.
Import HuggingFace.

Lemma strlen_append (s1 s2 : string) : JS.strlen (s1 ++ s2) = JS.strlen s1 + JS.strlen s2.
Proof. unfold JS.strlen. rewrite length_append. lia. Qed.

Lemma strlen_nonneg (s : string) : 0 <= JS.strlen s.
Proof. unfold JS.strlen. lia. Qed.

(** A rendered block is never empty: the header alone has nine
    characters and the separator two. *)
Lemma strlen_fileContent (f : FileObject) :
  JS.strlen (fileContent f) =
  JS.strlen (path f) + JS.strlen (content f) + 11.
Proof.
  unfold fileContent. rewrite !strlen_append.
  unfold JS.strlen. simpl String.length. rewrite length_append. simpl String.length.
  lia.
Qed.

Lemma render_cons (f : FileObject) (g : list FileObject) :
  render (f :: g) = (fileContent f ++ render g)%string.
Proof. reflexivity. Qed.

Lemma render_single (f : FileObject) : render [f] = fileContent f.
Proof. rewrite render_cons. apply append_nil_r. Qed.

Lemma render_app (g1 g2 : list FileObject) :
  render (g1 ++ g2) = (render g1 ++ render g2)%string.
Proof.
  induction g1 as [|f g1 IH]; [reflexivity|].
  rewrite <- app_comm_cons, !render_cons, IH. symmetry. apply append_assoc.
Qed.

Lemma strlen_render_cons (f : FileObject) (g : list FileObject) :
  0 < JS.strlen (render (f :: g)).
Proof.
  rewrite render_cons, strlen_append, strlen_fileContent.
  pose proof (strlen_nonneg (path f)). pose proof (strlen_nonneg (content f)).
  pose proof (strlen_nonneg (render g)). lia.
Qed.

Lemma holds_empty : holds emptyBuffer [].
Proof. repeat split. Qed.

(** The loop and the final flush compute the chunks of [groupsFrom]. *)
Lemma finish_fold_groups (files : list FileObject) :
  forall (b : Buffer) (cur : list FileObject),
    holds b cur ->
    finish (fold_left step files b) = chunks b ++ map chunkOf (groupsFrom cur files).
Proof.
  induction files as [|f rest IH]; intros b cur (Hc & Hn & Hs).
  - simpl. unfold finish. rewrite Hc. destruct cur as [|c cs].
    + simpl. now rewrite app_nil_r.
    + pose proof (strlen_render_cons c cs) as Hpos.
      destruct (Z.gtb_spec (JS.strlen (render (c :: cs))) 0); [|lia].
      unfold flush, chunkOf. simpl chunks. now rewrite Hc, Hn, Hs.
  - simpl fold_left. simpl groupsFrom. unfold step at 2.
    unfold startsNewChunk. rewrite Hc.
    destruct ((JS.strlen (render cur) + JS.strlen (fileContent f) >? maxChunkSize)
              && (JS.strlen (render cur) >? 0)).
    + rewrite (IH _ [f]).
      * simpl chunks. rewrite <- app_assoc. simpl.
        unfold chunkOf at 2. now rewrite Hc, Hn, Hs.
      * repeat split; [symmetry; apply render_single | simpl; lia].
    + rewrite (IH _ (cur ++ [f])); [reflexivity|].
      repeat split.
      * simpl currentChunk. now rewrite Hc, render_app, render_single.
      * simpl currentFileCount. rewrite Hn, length_app. simpl. lia.
      * simpl currentSize. rewrite Hs, sumSize_app. simpl. lia.
Qed.

Lemma chunkContent_groups (files : list FileObject) :
  chunkContent files = map chunkOf (groups files).
Proof.
  unfold chunkContent, groups.
  now rewrite (finish_fold_groups files emptyBuffer [] holds_empty).
Qed.

Lemma concat_groupsFrom (files : list FileObject) :
  forall cur, List.concat (groupsFrom cur files) = cur ++ files.
Proof.
  induction files as [|f rest IH]; intros cur; simpl.
  - destruct cur; simpl; now rewrite ?app_nil_r.
  - destruct (startsNewChunk cur f); simpl; rewrite IH; [reflexivity|].
    now rewrite <- app_assoc.
Qed.

Lemma startsNewChunk_nonempty (cur : list FileObject) (f : FileObject) :
  startsNewChunk cur f = true -> cur <> [].
Proof.
  unfold startsNewChunk. intros H%andb_prop Hnil. subst cur.
  destruct H as [_ H]. discriminate H.
Qed.

Lemma groupsFrom_nonempty (files : list FileObject) :
  forall cur, Forall (fun g => g <> []) (groupsFrom cur files).
Proof.
  induction files as [|f rest IH]; intros cur; simpl.
  - destruct cur; constructor; [discriminate | constructor].
  - destruct (startsNewChunk cur f) eqn:E; [|apply IH].
    constructor; [now apply startsNewChunk_nonempty with f | apply IH].
Qed.

Lemma sumFileCount_chunkOf (gs : list (list FileObject)) :
  sumFileCount (map chunkOf gs) = Z.of_nat (List.length (List.concat gs)).
Proof.
  induction gs as [|g gs IH]; [reflexivity|].
  simpl List.concat. rewrite length_app. simpl map. unfold sumFileCount in *.
  simpl fold_right. rewrite IH. simpl. lia.
Qed.


Lemma groupsFrom_nil_cons (g : FileObject) (rest : list FileObject) :
  groupsFrom [] (g :: rest) = groupsFrom [g] rest.
Proof.
  simpl groupsFrom. unfold startsNewChunk.
  change (JS.strlen (render []) >? 0) with false. now rewrite andb_false_r.
Qed.

Lemma groupsFrom_oversized_alone (f : FileObject) (post : list FileObject) :
  oversized f -> groupsFrom [f] post = [f] :: groupsFrom [] post.
Proof.
  intros Hbig. destruct post as [|g rest]; [reflexivity|].
  rewrite groupsFrom_nil_cons.
  simpl groupsFrom. unfold startsNewChunk. rewrite render_single.
  unfold oversized in Hbig.
  pose proof (strlen_fileContent g). pose proof (strlen_nonneg (path g)).
  pose proof (strlen_nonneg (content g)).
  assert (maxChunkSize = 16000) as Hmax by reflexivity.
  destruct (Z.gtb_spec (JS.strlen (fileContent f) + JS.strlen (fileContent g)) maxChunkSize);
    [|lia].
  destruct (Z.gtb_spec (JS.strlen (fileContent f)) 0); [|lia].
  reflexivity.
Qed.

Lemma groupsFrom_oversized_split (pre : list FileObject) (f : FileObject)
    (post : list FileObject) :
  oversized f ->
  forall cur, groupsFrom cur (pre ++ f :: post) = groupsFrom cur pre ++ groupsFrom [f] post.
Proof.
  intros Hbig. induction pre as [|p pre IH]; intros cur.
  - simpl app. destruct cur as [|c cs]; [apply groupsFrom_nil_cons|].
    simpl groupsFrom. unfold startsNewChunk.
    pose proof (strlen_render_cons c cs). unfold oversized in Hbig.
    destruct (Z.gtb_spec (JS.strlen (render (c :: cs)) + JS.strlen (fileContent f))
                maxChunkSize); [|lia].
    destruct (Z.gtb_spec (JS.strlen (render (c :: cs))) 0); [|lia].
    reflexivity.
  - simpl. destruct (startsNewChunk cur p); simpl; now rewrite IH.
Qed.

(** C5. [chunkContent] partitions its input in order: the chunks are the
    chunks of consecutive, non-empty groups of files whose concatenation
    is the input; so every file is in exactly one chunk, the [fileCount]
    fields sum to the number of files, [totalSize] is the sum of the
    original [size] fields of the group, and the empty input gives no
    chunk at all. *)
Theorem C5_chunkContent_partition :
  (forall files : list FileObject,
     exists gs : list (list FileObject),
       List.concat gs = files /\
       Forall (fun g => g <> []) gs /\
       chunkContent files =
         map (fun g => ContentChunk.mk (render g) (Z.of_nat (List.length g)) (sumSize g)) gs /\
       sumFileCount (chunkContent files) = Z.of_nat (List.length files)) /\
  chunkContent [] = [].
Proof.
  split; [|reflexivity].
  intros files. exists (groups files).
  pose proof (concat_groupsFrom files []) as Hcat. simpl in Hcat.
  repeat split.
  - exact Hcat.
  - apply groupsFrom_nonempty.
  - apply chunkContent_groups.
  - rewrite chunkContent_groups, sumFileCount_chunkOf. unfold groups. now rewrite Hcat.
Qed.

(** The chunks around a file whose rendered block is over the ceiling. *)
Lemma chunkContent_oversized (pre : list FileObject) (f : FileObject)
    (post : list FileObject) :
  oversized f ->
  chunkContent (pre ++ f :: post) =
    chunkContent pre ++ ContentChunk.mk (fileContent f) 1 (size f) :: chunkContent post.
Proof.
  intros Hbig. rewrite !chunkContent_groups. unfold groups.
  rewrite (groupsFrom_oversized_split pre f post Hbig),
    (groupsFrom_oversized_alone f post Hbig), map_app.
  simpl map. unfold chunkOf at 2. rewrite render_single.
  simpl. now rewrite Z.add_0_r.
Qed.

(** C8. A file whose rendered block alone exceeds the ceiling is never
    split: wherever it stands in the input, the output is the chunks of the
    files before it, then one chunk holding that file alone (its content is
    the rendered block, longer than the ceiling), then the chunks of the
    files after it. No file is dropped: the files before it and the files
    after it are cut into non-empty groups of consecutive files, and the
    output has one chunk for each group before, the chunk of the file, and
    one chunk for each group after, in this order; so the file counts of
    the chunks sum to the number of files. *)
Theorem C8_oversized_file_alone (pre : list FileObject) (f : FileObject)
    (post : list FileObject) :
  JS.strlen (fileContent f) > maxChunkSize ->
  chunkContent (pre ++ f :: post) =
    chunkContent pre ++ ContentChunk.mk (fileContent f) 1 (size f) :: chunkContent post /\
  JS.strlen (ContentChunk.content (ContentChunk.mk (fileContent f) 1 (size f))) > maxChunkSize /\
  (exists before after : list (list FileObject),
     List.concat before = pre /\
     List.concat after = post /\
     Forall (fun g => g <> []) (before ++ after) /\
     chunkContent (pre ++ f :: post) =
       map (fun g => ContentChunk.mk (render g) (Z.of_nat (List.length g)) (sumSize g))
           (before ++ [f] :: after)) /\
  sumFileCount (chunkContent (pre ++ f :: post))
    = Z.of_nat (List.length (pre ++ f :: post)).
Proof.
  intros Hbig. split; [now apply chunkContent_oversized|]. split; [exact Hbig|].
  pose proof (concat_groupsFrom pre []) as Hpre.
  pose proof (concat_groupsFrom post []) as Hpost.
  pose proof (concat_groupsFrom (pre ++ f :: post) []) as Hall.
  cbn [app] in Hpre, Hpost, Hall. split.
  - exists (groups pre), (groups post).
    split; [exact Hpre|]. split; [exact Hpost|]. split.
    + apply Forall_app. split; apply groupsFrom_nonempty.
    + rewrite chunkContent_groups. unfold groups.
      rewrite (groupsFrom_oversized_split pre f post Hbig),
        (groupsFrom_oversized_alone f post Hbig).
      reflexivity.
  - rewrite chunkContent_groups, sumFileCount_chunkOf. unfold groups. now rewrite Hall.
Qed.

Lemma C8_oversized_file_alone_witness :
  JS.strlen (fileContent Examples.big) > maxChunkSize /\
  chunkContent ([Examples.smallA] ++ Examples.big :: [Examples.smallB]) =
    chunkContent [Examples.smallA]
    ++ ContentChunk.mk (fileContent Examples.big) 1 (size Examples.big)
    :: chunkContent [Examples.smallB] /\
  sumFileCount (chunkContent ([Examples.smallA] ++ Examples.big :: [Examples.smallB]))
    = Z.of_nat (List.length ([Examples.smallA] ++ Examples.big :: [Examples.smallB])).
Proof.
  assert (JS.strlen (fileContent Examples.big) > maxChunkSize) as Hbig
    by (vm_compute; reflexivity).
  pose proof (C8_oversized_file_alone [Examples.smallA] Examples.big [Examples.smallB] Hbig)
    as (Hchunks & _ & _ & Hcount).
  split; [exact Hbig|]. split; [exact Hchunks | exact Hcount].
Defined.



End Chunker.

(** ** The selector: [addFile] and the two loops *)

Import FileSelector.

Lemma MAX_FILE_SIZE_value : MAX_FILE_SIZE = 102400.
Proof. reflexivity. Qed.

Lemma MAX_TOTAL_CONTENT_value : MAX_TOTAL_CONTENT = 51200.
Proof. reflexivity. Qed.

Lemma strlen_marker : JS.strlen TRUNCATION_MARKER = 16.
Proof. reflexivity. Qed.

Lemma TRUNCATED_MAX_value : TRUNCATED_MAX = 102416.
Proof. reflexivity. Qed.

Lemma content_truncated (f : FileObject) :
  content (truncated f) =
  (JS.substring0 (Z.to_nat MAX_FILE_SIZE) (content f) ++ TRUNCATION_MARKER)%string.
Proof. reflexivity. Qed.

Lemma path_truncated (f : FileObject) : path (truncated f) = path f.
Proof. reflexivity. Qed.

Lemma size_truncated (f : FileObject) :
  size (truncated f) =
  Z.min (JS.strlen (content f)) MAX_FILE_SIZE + JS.strlen TRUNCATION_MARKER.
Proof.
  unfold truncated. cbn [size]. rewrite strlen_append. f_equal.
  unfold JS.strlen. rewrite length_substring0, Nat2Z.inj_min, Z2Nat.id.
  - apply Z.min_comm.
  - rewrite MAX_FILE_SIZE_value. lia.
Qed.

Lemma size_truncated_bounds (f : FileObject) :
  16 <= size (truncated f) <= TRUNCATED_MAX.
Proof.
  rewrite size_truncated. unfold TRUNCATED_MAX. rewrite strlen_marker.
  pose proof (strlen_nonneg (content f)). rewrite MAX_FILE_SIZE_value. lia.
Qed.

(** The three outcomes of [addFile]. *)
Lemma addFile_oversized (st : Selection) (f : FileObject) :
  size f > MAX_FILE_SIZE ->
  addFile st f =
    (mkSelection (selectedFiles st ++ [truncated f]) (totalSize st + size (truncated f)),
     totalSize st + size (truncated f) <? MAX_TOTAL_CONTENT).
Proof.
  intros H. unfold addFile.
  destruct (Z.gtb_spec (size f) MAX_FILE_SIZE); [reflexivity | lia].
Qed.

Lemma addFile_rejected (st : Selection) (f : FileObject) :
  rejects st f -> addFile st f = (st, false).
Proof.
  intros [H1 H2]. unfold addFile.
  destruct (Z.gtb_spec (size f) MAX_FILE_SIZE); [lia|].
  destruct (Z.gtb_spec (totalSize st + size f) MAX_TOTAL_CONTENT); [reflexivity | lia].
Qed.

Lemma addFile_accepted (st : Selection) (f : FileObject) :
  size f <= MAX_FILE_SIZE ->
  totalSize st + size f <= MAX_TOTAL_CONTENT ->
  addFile st f = (mkSelection (selectedFiles st ++ [f]) (totalSize st + size f), true).
Proof.
  intros H1 H2. unfold addFile.
  destruct (Z.gtb_spec (size f) MAX_FILE_SIZE); [lia|].
  destruct (Z.gtb_spec (totalSize st + size f) MAX_TOTAL_CONTENT); [lia | reflexivity].
Qed.

(** Case analysis on a call of [addFile], by its three outcomes. *)
Lemma addFile_cases (st : Selection) (f : FileObject) :
  (size f > MAX_FILE_SIZE /\
   addFile st f =
     (mkSelection (selectedFiles st ++ [truncated f]) (totalSize st + size (truncated f)),
      totalSize st + size (truncated f) <? MAX_TOTAL_CONTENT)) \/
  (rejects st f /\ addFile st f = (st, false)) \/
  (size f <= MAX_FILE_SIZE /\ totalSize st + size f <= MAX_TOTAL_CONTENT /\
   addFile st f = (mkSelection (selectedFiles st ++ [f]) (totalSize st + size f), true)).
Proof.
  destruct (Z_gt_le_dec (size f) MAX_FILE_SIZE) as [H|H].
  - left. split; [assumption | now apply addFile_oversized].
  - destruct (Z_gt_le_dec (totalSize st + size f) MAX_TOTAL_CONTENT) as [H'|H'].
    + right; left. split; [split; assumption | apply addFile_rejected; split; assumption].
    + right; right. repeat split; try assumption. now apply addFile_accepted.
Qed.

Ltac addFile_cases st f :=
  let Hbig := fresh "Hbig" in
  let Hrej := fresh "Hrej" in
  let Hsmall := fresh "Hsmall" in
  let Hfit := fresh "Hfit" in
  let E := fresh "Eadd" in
  destruct (addFile_cases st f) as [(Hbig & E) | [(Hrej & E) | (Hsmall & Hfit & E)]];
  rewrite E.

(** Unfolding of the loops. *)
Lemma addEach_cons (st : Selection) (f : FileObject) (rest : list FileObject) :
  addEach st (f :: rest) =
  if snd (addFile st f) then addEach (fst (addFile st f)) rest else fst (addFile st f).
Proof. simpl. now destruct (addFile st f). Qed.

Lemma addEach_app (l1 l2 : list FileObject) :
  forall st,
    addEach st (l1 ++ l2) =
    if completes st l1 then addEach (addEach st l1) l2 else addEach st l1.
Proof.
  induction l1 as [|f l1 IH]; intros st; [reflexivity|].
  simpl. destruct (addFile st f) as [st' [|]]; simpl; [apply IH | reflexivity].
Qed.

(** The running total is the sum of the selected sizes, at every step. *)
Lemma addFile_consistent (st : Selection) (f : FileObject) :
  consistent st -> consistent (fst (addFile st f)).
Proof.
  unfold consistent. intros H. addFile_cases st f; cbn [fst selectedFiles totalSize];
    rewrite ?sumSize_app; simpl; lia.
Qed.

Lemma addEach_consistent (l : list FileObject) :
  forall st, consistent st -> consistent (addEach st l).
Proof.
  induction l as [|f l IH]; intros st H; [assumption|].
  rewrite addEach_cons. pose proof (addFile_consistent st f H).
  destruct (snd (addFile st f)); [now apply IH | assumption].
Qed.

Lemma addSourceFiles_consistent (l : list FileObject) :
  forall st count, consistent st -> consistent (addSourceFiles st count l).
Proof.
  induction l as [|f l IH]; intros st count H; [assumption|].
  simpl. destruct (count >=? 20); [assumption|].
  destruct (alreadySelected (path f) (selectedFiles st)); [now apply IH|].
  pose proof (addFile_consistent st f H) as H'.
  destruct (addFile st f) as [st' [|]]; [now apply IH | assumption].
Qed.

(** The selection only grows. *)
Lemma extends_refl (st : Selection) : extends st st.
Proof. exists []. now rewrite app_nil_r. Qed.

Lemma extends_trans (a b c : Selection) : extends a b -> extends b c -> extends a c.
Proof.
  intros [m1 H1] [m2 H2]. exists (m1 ++ m2). now rewrite H2, H1, app_assoc.
Qed.

Lemma addFile_extends (st : Selection) (f : FileObject) :
  extends st (fst (addFile st f)).
Proof.
  addFile_cases st f; cbn [fst]; try apply extends_refl; eexists; reflexivity.
Qed.

Lemma addEach_extends (l : list FileObject) :
  forall st, extends st (addEach st l).
Proof.
  induction l as [|f l IH]; intros st; [apply extends_refl|].
  rewrite addEach_cons. pose proof (addFile_extends st f) as H.
  destruct (snd (addFile st f)); [|assumption].
  eapply extends_trans; [exact H | apply IH].
Qed.

Lemma addSourceFiles_extends (l : list FileObject) :
  forall st count, extends st (addSourceFiles st count l).
Proof.
  induction l as [|f l IH]; intros st count; [apply extends_refl|].
  simpl. destruct (count >=? 20); [apply extends_refl|].
  destruct (alreadySelected (path f) (selectedFiles st)); [apply IH|].
  pose proof (addFile_extends st f) as H.
  destruct (addFile st f) as [st' [|]]; [|assumption].
  eapply extends_trans; [exact H | apply IH].
Qed.

Lemma extends_In (st st' : Selection) (x : FileObject) :
  extends st st' -> In x (selectedFiles st) -> In x (selectedFiles st').
Proof. intros [m ->] H. apply in_or_app. now left. Qed.

(** *** C3: the two sides of the budget check *)

(** C3 (as amended). A candidate over the per-file cap is appended,
    truncated, whatever the running total; the same call reports whether the
    new total is still strictly under the aggregate cap, so the pass halts
    right after that append when the cap is reached and goes on to the next
    candidate otherwise. A candidate within the per-file cap that would take
    the total strictly over the aggregate cap is rejected: nothing is
    appended and the pass halts. *)
Theorem C3_budget_check_asymmetry (st : Selection) (f : FileObject)
    (rest : list FileObject) :
  (size f > MAX_FILE_SIZE ->
     let st' := mkSelection (selectedFiles st ++ [truncated f])
                            (totalSize st + size (truncated f)) in
     fst (addFile st f) = st' /\
     (totalSize st' >= MAX_TOTAL_CONTENT ->
        snd (addFile st f) = false /\ addEach st (f :: rest) = st') /\
     (totalSize st' < MAX_TOTAL_CONTENT ->
        snd (addFile st f) = true /\ addEach st (f :: rest) = addEach st' rest)) /\
  (size f <= MAX_FILE_SIZE -> totalSize st + size f > MAX_TOTAL_CONTENT ->
     addFile st f = (st, false) /\ addEach st (f :: rest) = st).
Proof.
  split.
  - intros Hbig st'. rewrite addEach_cons, (addFile_oversized st f Hbig).
    cbn [fst snd]. fold st'.
    change (totalSize st + size (truncated f)) with (totalSize st').
    split; [reflexivity|].
    destruct (Z.ltb_spec (totalSize st') MAX_TOTAL_CONTENT);
      split; intros; try lia; split; reflexivity.
  - intros H1 H2. rewrite addEach_cons, (addFile_rejected st f (conj H1 H2)).
    split; reflexivity.
Qed.

Lemma C3_budget_check_asymmetry_witness :
  (size Examples.bigReadme > MAX_FILE_SIZE /\
   snd (addFile emptySelection Examples.bigReadme) = false /\
   addEach emptySelection [Examples.bigReadme; Examples.bigNestedReadme]
     = fst (addFile emptySelection Examples.bigReadme)) /\
  (let st := mkSelection [Examples.readme40k] 40000 in
   size Examples.license20k <= MAX_FILE_SIZE /\
   totalSize st + size Examples.license20k > MAX_TOTAL_CONTENT /\
   addFile st Examples.license20k = (st, false) /\
   addEach st [Examples.license20k; Examples.packageJson] = st).
Proof.
  split.
  - assert (size Examples.bigReadme > MAX_FILE_SIZE) as Hbig by (vm_compute; reflexivity).
    destruct (proj1 (C3_budget_check_asymmetry emptySelection Examples.bigReadme
                       [Examples.bigNestedReadme]) Hbig) as (Hfst & Hhalt & _).
    destruct Hhalt as [Hfalse Hpass]; [vm_compute; discriminate|].
    split; [exact Hbig|]. split; [exact Hfalse|]. rewrite Hfst. exact Hpass.
  - intros st.
    assert (size Examples.license20k <= MAX_FILE_SIZE) as H1 by (vm_compute; discriminate).
    assert (totalSize st + size Examples.license20k > MAX_TOTAL_CONTENT) as H2
      by (vm_compute; reflexivity).
    split; [exact H1|]. split; [exact H2|].
    exact (proj2 (C3_budget_check_asymmetry st Examples.license20k
                    [Examples.packageJson]) H1 H2).
Defined.

(** Two candidates over the per-file cap in the documentation tier: the
    call that appends the first one returns [false], the pass halts there,
    and the second candidate is never evaluated by the run. *)
Lemma C3_truncated_append_halts_its_own_pass :
  priority1 Examples.twoBigReadmes = [Examples.bigReadme; Examples.bigNestedReadme] /\
  size Examples.bigNestedReadme > MAX_FILE_SIZE /\
  snd (addFile emptySelection Examples.bigReadme) = false /\
  evaluated codeUnitCompare Examples.twoBigReadmes = [Examples.bigReadme] /\
  selectKeyFiles codeUnitCompare Examples.twoBigReadmes = [truncated Examples.bigReadme].
Proof. split; [|split; [|split; [|split]]]; files_by_computation. Qed.

(** *** C2: the running total *)

(** One pass ends at most one truncated record above the larger of the
    aggregate cap and the total it started from. *)
Lemma addEach_total_bound (l : list FileObject) :
  forall st,
    totalSize (addEach st l) <= Z.max (totalSize st) MAX_TOTAL_CONTENT + TRUNCATED_MAX.
Proof.
  induction l as [|f l IH]; intros st.
  - simpl. rewrite TRUNCATED_MAX_value. lia.
  - rewrite addEach_cons. pose proof (size_truncated_bounds f) as Hb.
    assert (0 <= TRUNCATED_MAX) by (destruct Hb; lia).
    addFile_cases st f; cbn [fst snd].
    + destruct (Z.ltb_spec (totalSize st + size (truncated f)) MAX_TOTAL_CONTENT).
      * specialize (IH (mkSelection (selectedFiles st ++ [truncated f])
                                    (totalSize st + size (truncated f)))).
        cbn [totalSize] in IH |- *. lia.
      * cbn [totalSize]. lia.
    + lia.
    + specialize (IH (mkSelection (selectedFiles st ++ [f]) (totalSize st + size f))).
      cbn [totalSize] in IH. lia.
Qed.

Lemma addSourceFiles_total_bound (l : list FileObject) :
  forall st count,
    totalSize (addSourceFiles st count l)
    <= Z.max (totalSize st) MAX_TOTAL_CONTENT + TRUNCATED_MAX.
Proof.
  induction l as [|f l IH]; intros st count.
  - simpl. rewrite TRUNCATED_MAX_value. lia.
  - pose proof (size_truncated_bounds f) as Hb.
    assert (0 <= TRUNCATED_MAX) by (destruct Hb; lia).
    simpl. destruct (count >=? 20); [lia|].
    destruct (alreadySelected (path f) (selectedFiles st)); [apply IH|].
    addFile_cases st f.
    + destruct (Z.ltb_spec (totalSize st + size (truncated f)) MAX_TOTAL_CONTENT).
      * specialize (IH (mkSelection (selectedFiles st ++ [truncated f])
                                    (totalSize st + size (truncated f))) (count + 1)).
        cbn [totalSize] in IH. lia.
      * cbn [totalSize]. lia.
    + lia.
    + specialize (IH (mkSelection (selectedFiles st ++ [f]) (totalSize st + size f))
                     (count + 1)).
      cbn [totalSize] in IH. lia.
Qed.

Lemma addFile_size_bound (st : Selection) (f : FileObject) :
  Forall (fun x => size x <= TRUNCATED_MAX) (selectedFiles st) ->
  Forall (fun x => size x <= TRUNCATED_MAX) (selectedFiles (fst (addFile st f))).
Proof.
  intros H. pose proof (size_truncated_bounds f).
  addFile_cases st f; cbn [fst selectedFiles]; try assumption;
    apply Forall_app; split; try assumption; constructor; try constructor.
  - lia.
  - rewrite TRUNCATED_MAX_value, MAX_FILE_SIZE_value in *. lia.
Qed.

Lemma addEach_size_bound (l : list FileObject) :
  forall st,
    Forall (fun x => size x <= TRUNCATED_MAX) (selectedFiles st) ->
    Forall (fun x => size x <= TRUNCATED_MAX) (selectedFiles (addEach st l)).
Proof.
  induction l as [|f l IH]; intros st H; [assumption|].
  rewrite addEach_cons. pose proof (addFile_size_bound st f H).
  destruct (snd (addFile st f)); [now apply IH | assumption].
Qed.

Lemma addSourceFiles_size_bound (l : list FileObject) :
  forall st count,
    Forall (fun x => size x <= TRUNCATED_MAX) (selectedFiles st) ->
    Forall (fun x => size x <= TRUNCATED_MAX) (selectedFiles (addSourceFiles st count l)).
Proof.
  induction l as [|f l IH]; intros st count H; [assumption|].
  simpl. destruct (count >=? 20); [assumption|].
  destruct (alreadySelected (path f) (selectedFiles st)); [now apply IH|].
  pose proof (addFile_size_bound st f H) as H'.
  destruct (addFile st f) as [st' [|]]; [now apply IH | assumption].
Qed.

Lemma sumSize_bound (B : Z) (l : list FileObject) :
  Forall (fun x => size x <= B) l -> sumSize l <= Z.of_nat (List.length l) * B.
Proof.
  induction 1 as [|x l Hx _ IH]; [simpl; lia|].
  cbn [sumSize fold_right List.length]. fold (sumSize l). nia.
Qed.

Section Runs.
Variable localeCompare : string -> string -> Z.
Variable files : list FileObject.

Lemma consistent_afterSourceFiles : consistent (afterSourceFiles files).
Proof.
  apply addSourceFiles_consistent. do 3 apply addEach_consistent. reflexivity.
Qed.

Lemma consistent_afterRootFiles : consistent (afterRootFiles localeCompare files).
Proof.
  unfold afterRootFiles. pose proof consistent_afterSourceFiles.
  destruct (_ <? 5); [now apply addEach_consistent | assumption].
Qed.

Lemma total_afterSourceFiles :
  totalSize (afterSourceFiles files) <= MAX_TOTAL_CONTENT + 4 * TRUNCATED_MAX.
Proof.
  pose proof (addEach_total_bound (priority1 files) emptySelection) as H1.
  pose proof (addEach_total_bound (priority2 files) (afterPriority1 files)) as H2.
  pose proof (addEach_total_bound (entryPoints files) (afterPriority2 files)) as H3.
  pose proof (addSourceFiles_total_bound (sourceFiles files) (afterEntryPoints files) 0)
    as H4.
  fold (afterPriority1 files) in H1. fold (afterPriority2 files) in H2.
  fold (afterEntryPoints files) in H3. fold (afterSourceFiles files) in H4.
  cbn [totalSize emptySelection] in H1.
  rewrite TRUNCATED_MAX_value, MAX_TOTAL_CONTENT_value in *. lia.
Qed.

Lemma sizes_afterSourceFiles :
  Forall (fun x => size x <= TRUNCATED_MAX) (selectedFiles (afterSourceFiles files)).
Proof.
  apply addSourceFiles_size_bound. do 3 apply addEach_size_bound. constructor.
Qed.

Lemma total_afterRootFiles :
  totalSize (afterRootFiles localeCompare files) <= 5 * TRUNCATED_MAX.
Proof.
  unfold afterRootFiles. pose proof total_afterSourceFiles as H4.
  pose proof consistent_afterSourceFiles as Hc. unfold consistent in Hc.
  pose proof (sumSize_bound _ _ sizes_afterSourceFiles) as Hsum.
  set (st := afterSourceFiles files) in *.
  destruct (Z.ltb_spec (Z.of_nat (List.length (selectedFiles st))) 5) as [Hlen|Hlen].
  - pose proof (addEach_total_bound (rootFiles localeCompare (selectedFiles st) files) st)
      as H5.
    rewrite TRUNCATED_MAX_value, MAX_TOTAL_CONTENT_value in *. nia.
  - rewrite TRUNCATED_MAX_value, MAX_TOTAL_CONTENT_value in *. lia.
Qed.

End Runs.

(** C2 (as amended). The running total is the sum of the sizes of the
    records selected so far: initially, after every call of [addFile] and in
    the final state. It is not held to the aggregate cap plus one truncated
    record: a truncated append that reaches the cap ends only its own pass,
    so each pass ends at most one truncated record ([TRUNCATED_MAX], 100 KiB
    plus the marker) above the larger of the cap and the total it started
    from, and the sizes of the output sum to at most five truncated records,
    a bound that the input [Examples.fiveBig] reaches. *)
Theorem C2_running_total :
  consistent emptySelection /\
  (forall (st : Selection) (f : FileObject),
     consistent st -> consistent (fst (addFile st f))) /\
  (forall (st : Selection) (candidates : list FileObject),
     totalSize (addEach st candidates)
     <= Z.max (totalSize st) MAX_TOTAL_CONTENT + TRUNCATED_MAX) /\
  (forall (st : Selection) (count : Z) (candidates : list FileObject),
     totalSize (addSourceFiles st count candidates)
     <= Z.max (totalSize st) MAX_TOTAL_CONTENT + TRUNCATED_MAX) /\
  (forall (localeCompare : string -> string -> Z) (files : list FileObject),
     totalSize (afterRootFiles localeCompare files)
       = sumSize (selectKeyFiles localeCompare files) /\
     sumSize (selectKeyFiles localeCompare files) <= 5 * TRUNCATED_MAX) /\
  sumSize (selectKeyFiles codeUnitCompare Examples.fiveBig) = 5 * TRUNCATED_MAX.
Proof.
  split; [reflexivity|].
  split; [exact addFile_consistent|].
  split; [intros; apply addEach_total_bound|].
  split; [intros; apply addSourceFiles_total_bound|].
  split; [|vm_compute; reflexivity].
  intros lc files. pose proof (consistent_afterRootFiles lc files) as Hc.
  unfold consistent in Hc. unfold selectKeyFiles. split; [exact Hc|].
  rewrite <- Hc. apply total_afterRootFiles.
Qed.

Lemma C2_running_total_witness :
  let st := mkSelection [Examples.smallA] 5 in
  consistent st /\ consistent (fst (addFile st Examples.smallB)).
Proof.
  intros st. assert (consistent st) as H by reflexivity.
  split; [exact H|].
  exact (proj1 (proj2 C2_running_total) st Examples.smallB H).
Defined.

(** Two truncated appends in one run: the documentation tier and the
    configuration tier each append a truncated record, and the sizes of the
    output exceed the aggregate cap by more than one truncated record. *)
Lemma C2_two_truncated_appends :
  selectKeyFiles codeUnitCompare Examples.twoBig =
    [truncated Examples.bigReadme; truncated Examples.bigPackage] /\
  sumSize (selectKeyFiles codeUnitCompare Examples.twoBig) = 204832 /\
  sumSize (selectKeyFiles codeUnitCompare Examples.twoBig)
    > MAX_TOTAL_CONTENT + TRUNCATED_MAX.
Proof. split; [|split]; files_by_computation. Qed.

(** *** C4: files over the per-file cap *)

Lemma evaluatedEach_truncated (f : FileObject) (l : list FileObject) :
  forall st,
    In f (evaluatedEach st l) -> size f > MAX_FILE_SIZE ->
    In (truncated f) (selectedFiles (addEach st l)).
Proof.
  induction l as [|g l IH]; intros st Hin Hbig; [contradiction|].
  rewrite addEach_cons. simpl in Hin.
  destruct (addFile st g) as [st' ok] eqn:E. cbn [fst snd].
  destruct Hin as [->|Hin].
  - assert (In (truncated f) (selectedFiles st')) as Hst'.
    { rewrite (addFile_oversized st f Hbig) in E. injection E as <- _.
      cbn [selectedFiles]. apply in_or_app. right. now left. }
    destruct ok; [|assumption].
    eapply extends_In; [apply addEach_extends | assumption].
  - destruct ok; [now apply IH | contradiction].
Qed.

Lemma evaluatedSourceFiles_truncated (f : FileObject) (l : list FileObject) :
  forall st count,
    In f (evaluatedSourceFiles st count l) -> size f > MAX_FILE_SIZE ->
    In (truncated f) (selectedFiles (addSourceFiles st count l)).
Proof.
  induction l as [|g l IH]; intros st count Hin Hbig; [contradiction|].
  simpl in Hin |- *. destruct (count >=? 20); [contradiction|].
  destruct (alreadySelected (path g) (selectedFiles st)); [now apply IH|].
  destruct (addFile st g) as [st' ok] eqn:E.
  destruct Hin as [->|Hin].
  - assert (In (truncated f) (selectedFiles st')) as Hst'.
    { rewrite (addFile_oversized st f Hbig) in E. injection E as <- _.
      cbn [selectedFiles]. apply in_or_app. right. now left. }
    destruct ok; [|assumption].
    eapply extends_In; [apply addSourceFiles_extends | assumption].
  - destruct ok; [now apply IH | contradiction].
Qed.

Section RunsGrow.
Variable localeCompare : string -> string -> Z.
Variable files : list FileObject.

Lemma extends_root : extends (afterSourceFiles files) (afterRootFiles localeCompare files).
Proof.
  unfold afterRootFiles. destruct (_ <? 5); [apply addEach_extends | apply extends_refl].
Qed.

Lemma extends_source : extends (afterEntryPoints files) (afterRootFiles localeCompare files).
Proof.
  eapply extends_trans; [apply addSourceFiles_extends | apply extends_root].
Qed.

Lemma extends_entry : extends (afterPriority2 files) (afterRootFiles localeCompare files).
Proof.
  eapply extends_trans; [apply addEach_extends | apply extends_source].
Qed.

Lemma extends_priority2 : extends (afterPriority1 files) (afterRootFiles localeCompare files).
Proof.
  eapply extends_trans; [apply addEach_extends | apply extends_entry].
Qed.

End RunsGrow.

(** C4. Every candidate over the per-file cap that a run passes to
    [addFile] is kept: the output holds the derived record [truncated f],
    with the path and type of [f], with the first [MAX_FILE_SIZE] characters
    of the content of [f] followed by the marker as content, and with the
    length of that content as size, which is 102400 + 16 when the content
    of [f] has at least [MAX_FILE_SIZE] characters. *)
Theorem C4_oversized_file_truncated_and_kept
    (localeCompare : string -> string -> Z) (files : list FileObject) (f : FileObject) :
  In f (evaluated localeCompare files) ->
  size f > MAX_FILE_SIZE ->
  In (truncated f) (selectKeyFiles localeCompare files) /\
  path (truncated f) = path f /\
  type (truncated f) = type f /\
  content (truncated f) =
    (JS.substring0 (Z.to_nat MAX_FILE_SIZE) (content f) ++ TRUNCATION_MARKER)%string /\
  JS.strlen (JS.substring0 (Z.to_nat MAX_FILE_SIZE) (content f))
    = Z.min (JS.strlen (content f)) MAX_FILE_SIZE /\
  size (truncated f) = JS.strlen (content (truncated f)) /\
  (JS.strlen (content f) >= MAX_FILE_SIZE -> size (truncated f) = 102400 + 16).
Proof.
  intros Hin Hbig. split.
  - unfold selectKeyFiles, evaluated in *.
    repeat (apply in_app_or in Hin; destruct Hin as [Hin|Hin]).
    + eapply extends_In; [apply extends_priority2|].
      now apply evaluatedEach_truncated.
    + eapply extends_In; [apply extends_entry|].
      now apply evaluatedEach_truncated.
    + eapply extends_In; [apply extends_source|].
      now apply evaluatedEach_truncated.
    + eapply extends_In; [apply extends_root|].
      now apply evaluatedSourceFiles_truncated.
    + unfold afterRootFiles. cbv zeta in Hin.
      destruct (_ <? 5); [now apply evaluatedEach_truncated | contradiction].
  - repeat split.
    + unfold JS.strlen. rewrite length_substring0, Nat2Z.inj_min, Z2Nat.id.
      * apply Z.min_comm.
      * rewrite MAX_FILE_SIZE_value. lia.
    + intros Hlong. rewrite size_truncated, strlen_marker, MAX_FILE_SIZE_value in *. lia.
Qed.

Lemma C4_oversized_file_truncated_and_kept_witness :
  In Examples.bigReadme (evaluated codeUnitCompare Examples.twoBig) /\
  size Examples.bigReadme > MAX_FILE_SIZE /\
  In (truncated Examples.bigReadme) (selectKeyFiles codeUnitCompare Examples.twoBig) /\
  size (truncated Examples.bigReadme) = 102400 + 16.
Proof.
  assert (In Examples.bigReadme (evaluated codeUnitCompare Examples.twoBig)) as H1
    by files_by_computation.
  assert (size Examples.bigReadme > MAX_FILE_SIZE) as H2 by (vm_compute; reflexivity).
  pose proof (C4_oversized_file_truncated_and_kept codeUnitCompare Examples.twoBig
                Examples.bigReadme H1 H2) as (Hkept & _ & _ & _ & _ & _ & Hsize).
  split; [exact H1|]. split; [exact H2|]. split; [exact Hkept|].
  apply Hsize. vm_compute. discriminate.
Defined.

(** *** C7: paths are selected once *)

Lemma alreadySelected_In (p : string) (sel : list FileObject) :
  alreadySelected p sel = true <-> In p (map path sel).
Proof.
  unfold alreadySelected, JS.some. rewrite existsb_exists, in_map_iff.
  split; intros (x & H1 & H2).
  - exists x. split; [now apply String.eqb_eq | assumption].
  - exists x. split; [assumption | now apply String.eqb_eq].
Qed.

Lemma notSelected_In (sel : list FileObject) (f : FileObject) :
  notSelected sel f = true <-> ~ In (path f) (map path sel).
Proof.
  unfold notSelected. rewrite <- alreadySelected_In.
  destruct (alreadySelected (path f) sel); simpl; split; intros H;
    congruence || (intros ?; congruence) || (exfalso; now apply H).
Qed.

(** [addFile] appends at most one record, with the path of the candidate. *)
Lemma addFile_paths (st : Selection) (f : FileObject) :
  (selectedPaths (fst (addFile st f)) = selectedPaths st /\ snd (addFile st f) = false) \/
  selectedPaths (fst (addFile st f)) = selectedPaths st ++ [path f].
Proof.
  unfold selectedPaths.
  addFile_cases st f; cbn [fst snd selectedFiles]; rewrite ?map_app; auto.
Qed.

(** A pass appends a prefix of its candidates, up to truncation. *)
Lemma addEach_paths (l : list FileObject) :
  forall st, exists k,
    selectedPaths (addEach st l) = selectedPaths st ++ map path (firstn k l).
Proof.
  induction l as [|f l IH]; intros st.
  - exists 0%nat. simpl. now rewrite app_nil_r.
  - rewrite addEach_cons.
    destruct (addFile_paths st f) as [[Hp Hr]|Hp].
    + rewrite Hr, Hp. exists 0%nat. simpl. now rewrite app_nil_r.
    + destruct (snd (addFile st f)).
      * destruct (IH (fst (addFile st f))) as [k Hk]. exists (S k).
        rewrite Hk, Hp, <- app_assoc. reflexivity.
      * exists 1%nat. rewrite Hp. reflexivity.
Qed.

Lemma In_firstn (A : Type) (n : nat) (x : A) (l : list A) :
  In x (firstn n l) -> In x l.
Proof.
  intros H. rewrite <- (firstn_skipn n l). apply in_or_app. now left.
Qed.

Lemma NoDup_firstn (A : Type) (n : nat) (l : list A) : NoDup l -> NoDup (firstn n l).
Proof.
  intros H. rewrite <- (firstn_skipn n l) in H. now apply NoDup_app_remove_r in H.
Qed.

Lemma NoDup_map_filter (A B : Type) (g : A -> B) (p : A -> bool) (l : list A) :
  NoDup (map g l) -> NoDup (map g (filter p l)).
Proof.
  induction l as [|x l IH]; simpl; [trivial|].
  intros H. apply NoDup_cons_iff in H as [Hx Hl].
  destruct (p x); [|now apply IH].
  simpl. constructor; [|now apply IH].
  intros Hin. apply Hx. apply in_map_iff in Hin as (y & Hy & Hin).
  apply in_map_iff. exists y. split; [assumption|]. now apply filter_In in Hin.
Qed.

Lemma NoDup_map_sort (A B : Type) (g : A -> B) (cmp : A -> A -> Z) (l : list A) :
  NoDup (map g l) -> NoDup (map g (JS.sort cmp l)).
Proof.
  apply Permutation_NoDup, Permutation_map. symmetry. apply sort_perm.
Qed.

Lemma addEach_NoDup (l : list FileObject) (st : Selection) :
  NoDup (selectedPaths st) -> NoDup (map path l) ->
  (forall f, In f l -> ~ In (path f) (selectedPaths st)) ->
  NoDup (selectedPaths (addEach st l)).
Proof.
  intros Hst Hl Hnew. destruct (addEach_paths l st) as [k ->].
  apply NoDup_app; try assumption.
  - rewrite <- firstn_map. now apply NoDup_firstn.
  - intros p Hp Hin. apply in_map_iff in Hin as (f & <- & Hf).
    apply (Hnew f); [|assumption]. now apply In_firstn in Hf.
Qed.

Lemma addSourceFiles_NoDup (l : list FileObject) :
  forall st count,
    NoDup (selectedPaths st) -> NoDup (selectedPaths (addSourceFiles st count l)).
Proof.
  induction l as [|f l IH]; intros st count H; [assumption|].
  simpl. destruct (count >=? 20); [assumption|].
  destruct (alreadySelected (path f) (selectedFiles st)) eqn:E; [now apply IH|].
  assert (NoDup (selectedPaths (fst (addFile st f)))) as H'.
  { destruct (addFile_paths st f) as [[-> _]| ->]; [assumption|].
    apply NoDup_app; [assumption | repeat constructor; intros [] |].
    intros p Hp [<-|[]]. apply alreadySelected_In in Hp. congruence. }
  destruct (addFile st f) as [st' [|]]; [now apply IH | assumption].
Qed.

(** The three lists of base names are pairwise disjoint. *)
Lemma arrayIncludes_disjoint (names1 names2 : list string) :
  forallb (fun n => negb (JS.arrayIncludes names2 n)) names1 = true ->
  forall n, JS.arrayIncludes names1 n = true -> JS.arrayIncludes names2 n = false.
Proof.
  intros H n Hn. rewrite forallb_forall in H.
  apply existsb_exists in Hn as (m & Hm & Hnm). apply String.eqb_eq in Hnm. subst m.
  specialize (H n Hm). now destruct (JS.arrayIncludes names2 n).
Qed.

Lemma priority1_not_priority2 (p : string) :
  nameIn PRIORITY_1_FILES p = true -> nameIn PRIORITY_2_PATTERNS p = false.
Proof. apply arrayIncludes_disjoint. reflexivity. Qed.

Lemma priority1_not_entryPoint (p : string) :
  nameIn PRIORITY_1_FILES p = true -> nameIn ENTRY_POINT_PATTERNS p = false.
Proof. apply arrayIncludes_disjoint. reflexivity. Qed.

Lemma priority2_not_entryPoint (p : string) :
  nameIn PRIORITY_2_PATTERNS p = true -> nameIn ENTRY_POINT_PATTERNS p = false.
Proof. apply arrayIncludes_disjoint. reflexivity. Qed.

Lemma Forall_map_firstn (P : string -> Prop) (k : nat) (l : list FileObject) :
  Forall (fun f => P (path f)) l -> Forall P (map path (firstn k l)).
Proof.
  intros H. rewrite Forall_forall in H |- *. intros p Hp.
  apply in_map_iff in Hp as (f & <- & Hf). apply H. now apply In_firstn in Hf.
Qed.

Section RunPaths.
Variable localeCompare : string -> string -> Z.
Variable files : list FileObject.

Lemma paths_afterPriority1 :
  Forall (fun p => nameIn PRIORITY_1_FILES p = true) (selectedPaths (afterPriority1 files)).
Proof.
  unfold afterPriority1. destruct (addEach_paths (priority1 files) emptySelection) as [k ->].
  simpl app. apply Forall_map_firstn. apply Forall_forall. intros f Hf.
  now apply filter_In in Hf.
Qed.

Lemma paths_afterPriority2 :
  Forall (fun p => nameIn PRIORITY_1_FILES p = true \/ nameIn PRIORITY_2_PATTERNS p = true)
         (selectedPaths (afterPriority2 files)).
Proof.
  unfold afterPriority2.
  destruct (addEach_paths (priority2 files) (afterPriority1 files)) as [k ->].
  apply Forall_app. split.
  - eapply Forall_impl; [|apply paths_afterPriority1]. intros p H. now left.
  - apply Forall_map_firstn. apply Forall_forall. intros f Hf.
    right. now apply filter_In in Hf.
Qed.

Hypothesis files_NoDup : NoDup (map path files).

Lemma NoDup_afterPriority1 : NoDup (selectedPaths (afterPriority1 files)).
Proof.
  apply addEach_NoDup; [constructor | now apply NoDup_map_filter | intros f _ []].
Qed.

Lemma NoDup_afterPriority2 : NoDup (selectedPaths (afterPriority2 files)).
Proof.
  apply addEach_NoDup;
    [apply NoDup_afterPriority1 | now apply NoDup_map_filter |].
  intros f Hf Hin. apply filter_In in Hf as [_ Hf].
  pose proof paths_afterPriority1 as H1. rewrite Forall_forall in H1.
  apply H1, priority1_not_priority2 in Hin. unfold isPriority2, nameIn in *. congruence.
Qed.

Lemma NoDup_afterEntryPoints : NoDup (selectedPaths (afterEntryPoints files)).
Proof.
  apply addEach_NoDup;
    [apply NoDup_afterPriority2 | now apply NoDup_map_sort, NoDup_map_filter |].
  intros f Hf Hin. apply sort_In, filter_In in Hf as [_ Hf].
  pose proof paths_afterPriority2 as H2. rewrite Forall_forall in H2.
  destruct (H2 _ Hin) as [H|H];
    [apply priority1_not_entryPoint in H | apply priority2_not_entryPoint in H];
    unfold isEntryPoint, nameIn in *; congruence.
Qed.

Lemma NoDup_afterSourceFiles : NoDup (selectedPaths (afterSourceFiles files)).
Proof. apply addSourceFiles_NoDup, NoDup_afterEntryPoints. Qed.

Lemma NoDup_afterRootFiles : NoDup (selectedPaths (afterRootFiles localeCompare files)).
Proof.
  unfold afterRootFiles. destruct (_ <? 5); [|apply NoDup_afterSourceFiles].
  apply addEach_NoDup; [apply NoDup_afterSourceFiles | |].
  - unfold rootFiles, JS.slice0. rewrite <- firstn_map. apply NoDup_firstn.
    now apply NoDup_map_sort, NoDup_map_filter, NoDup_map_filter.
  - intros f Hf. unfold rootFiles, JS.slice0 in Hf.
    apply In_firstn in Hf.
    apply sort_In, filter_In in Hf as [Hf _]. apply filter_In in Hf as [_ Hf].
    now apply notSelected_In.
Qed.

End RunPaths.

(** C7. When the paths of the input are pairwise distinct, so are the
    paths of the output of [selectKeyFiles]: no pass appends a path that an
    earlier pass has appended. *)
Theorem C7_selected_paths_distinct
    (localeCompare : string -> string -> Z) (files : list FileObject) :
  NoDup (map path files) ->
  NoDup (map path (selectKeyFiles localeCompare files)).
Proof. apply NoDup_afterRootFiles. Qed.

Lemma C7_selected_paths_distinct_witness :
  NoDup (map path Examples.rejectionThenFit) /\
  NoDup (map path (selectKeyFiles codeUnitCompare Examples.rejectionThenFit)).
Proof.
  assert (NoDup (map path Examples.rejectionThenFit)) as H.
  { vm_compute. repeat constructor; simpl; intuition discriminate. }
  split; [exact H|].
  exact (C7_selected_paths_distinct codeUnitCompare Examples.rejectionThenFit H).
Defined.

(** *** C9: the order of the entry-point tier *)

Lemma byDepth_total : JS.total byDepth.
Proof. intros a b. unfold byDepth. lia. Qed.

Lemma byDepth_transitive : JS.transitive byDepth.
Proof. intros a b c. unfold byDepth. lia. Qed.

Lemma entryPoints_sorted (files : list FileObject) :
  StronglySorted (fun a b => depth (path a) <= depth (path b)) (entryPoints files).
Proof.
  pose proof (sort_StronglySorted _ byDepth byDepth_total byDepth_transitive
                (filter isEntryPoint files)) as H.
  fold (entryPoints files) in H.
  induction H as [|x l Hs IH Hall]; constructor; [assumption|].
  eapply Forall_impl; [|exact Hall]. intros y Hy. unfold JS.le, byDepth in Hy. lia.
Qed.

(** In a list sorted by depth, a file that is strictly shallower than [y]
    stands before [y]. *)
Lemma shallower_stands_before (x y : FileObject) (l1 l2 : list FileObject) :
  StronglySorted (fun a b => depth (path a) <= depth (path b)) (l1 ++ y :: l2) ->
  In x (l1 ++ y :: l2) ->
  depth (path x) < depth (path y) ->
  In x l1.
Proof.
  induction l1 as [|z l1 IH]; simpl; intros Hs Hin Hlt.
  - apply StronglySorted_inv in Hs as [_ Hall]. rewrite Forall_forall in Hall.
    destruct Hin as [->|Hin]; [lia|]. specialize (Hall x Hin). simpl in Hall. lia.
  - destruct Hin as [->|Hin]; [now left|]. right.
    apply StronglySorted_inv in Hs as [Hs _]. now apply IH.
Qed.

(** C9 (as amended). The candidates of the entry-point tier are the
    entry-point files of the input sorted by ascending path depth; and when
    the input holds the root-level [index.js] and [src/app/index.js] is
    selected by the end of the entry-point tier, [index.js] appears strictly
    before [src/app/index.js] in the output. *)
Theorem C9_entry_points_by_depth
    (localeCompare : string -> string -> Z) (files : list FileObject) (root : FileObject) :
  Permutation (entryPoints files) (filter isEntryPoint files) /\
  StronglySorted (fun a b => depth (path a) <= depth (path b)) (entryPoints files) /\
  (In root files -> path root = "index.js"%string ->
   In "src/app/index.js"%string (selectedPaths (afterEntryPoints files)) ->
   appearsBefore "index.js" "src/app/index.js"
     (map path (selectKeyFiles localeCompare files))).
Proof.
  split; [apply sort_perm|]. split; [apply entryPoints_sorted|].
  intros Hroot Hpath Hnested.
  destruct (extends_source localeCompare files) as [more Hmore].
  unfold selectKeyFiles. rewrite Hmore, map_app.
  fold (selectedPaths (afterEntryPoints files)).
  unfold afterEntryPoints in Hnested |- *.
  destruct (addEach_paths (entryPoints files) (afterPriority2 files)) as [k Hk].
  rewrite Hk in Hnested |- *. clear Hk Hmore.
  apply in_app_or in Hnested as [Hnested|Hnested].
  - exfalso. pose proof (paths_afterPriority2 files) as H2.
    rewrite Forall_forall in H2. destruct (H2 _ Hnested) as [H|H]; discriminate H.
  - apply in_map_iff in Hnested as (nested & Hnp & Hnested).
    apply in_split in Hnested as (e1 & e2 & He).
    assert (In root e1) as Hin.
    { apply (shallower_stands_before root nested e1 (e2 ++ skipn k (entryPoints files))).
      - rewrite app_comm_cons, app_assoc, <- He, firstn_skipn. apply entryPoints_sorted.
      - rewrite app_comm_cons, app_assoc, <- He, firstn_skipn.
        apply sort_In, filter_In. split; [assumption|].
        unfold isEntryPoint. now rewrite Hpath.
      - rewrite Hpath, Hnp. reflexivity. }
    apply in_split in Hin as (a & b & ->).
    exists (selectedPaths (afterPriority2 files) ++ map path a),
      (map path b), (map path e2 ++ map path more).
    rewrite He. repeat (rewrite map_app || rewrite map_cons).
    rewrite Hpath, Hnp. repeat (rewrite <- app_assoc || rewrite <- app_comm_cons).
    reflexivity.
Qed.

Lemma C9_entry_points_by_depth_witness :
  In Examples.indexJs Examples.nestedFirst /\
  path Examples.indexJs = "index.js"%string /\
  In "src/app/index.js"%string (selectedPaths (afterEntryPoints Examples.nestedFirst)) /\
  appearsBefore "index.js" "src/app/index.js"
    (map path (selectKeyFiles codeUnitCompare Examples.nestedFirst)).
Proof.
  assert (In Examples.indexJs Examples.nestedFirst) as H1 by (right; left; reflexivity).
  assert (path Examples.indexJs = "index.js"%string) as H2 by reflexivity.
  assert (In "src/app/index.js"%string
             (selectedPaths (afterEntryPoints Examples.nestedFirst))) as H3
    by (vm_compute; right; left; reflexivity).
  split; [exact H1|]. split; [exact H2|]. split; [exact H3|].
  exact (proj2 (proj2 (C9_entry_points_by_depth codeUnitCompare Examples.nestedFirst
                         Examples.indexJs)) H1 H2 H3).
Defined.

(** A larger entry point ahead of [index.js] is rejected and ends the
    entry-point tier; the source-directory tier then appends
    [src/app/index.js] and the fallback pass appends [index.js] after it.
    Both files fit under the aggregate cap and neither is taken by an
    earlier tier. *)
Lemma C9_nested_index_first :
  In Examples.indexJs Examples.shadowedIndex /\
  In Examples.nestedIndexJs Examples.shadowedIndex /\
  size Examples.indexJs + size Examples.nestedIndexJs <= MAX_TOTAL_CONTENT /\
  map path (selectKeyFiles codeUnitCompare Examples.shadowedIndex)
    = ["src/app/index.js"; "index.js"]%string /\
  ~ appearsBefore "index.js" "src/app/index.js"
      (map path (selectKeyFiles codeUnitCompare Examples.shadowedIndex)).
Proof.
  assert (map path (selectKeyFiles codeUnitCompare Examples.shadowedIndex)
          = ["src/app/index.js"; "index.js"]%string) as Hout by (vm_compute; reflexivity).
  split; [right; left; reflexivity|]. split; [right; right; left; reflexivity|].
  split; [vm_compute; discriminate|]. split; [exact Hout|].
  rewrite Hout. intros (l1 & l2 & l3 & H).
  destruct l1 as [|p1 [|p2 l1]]; simpl in H.
  - discriminate H.
  - destruct l2; discriminate H.
  - destruct l1; discriminate H.
Qed.

(** *** C6: selecting again *)





(** The sizes of distinct records of [files] sum to at most the sizes of
    [files], when no size is negative. *)
Lemma sumSize_nonneg (l : list FileObject) :
  Forall (fun f => 0 <= size f) l -> 0 <= sumSize l.
Proof. induction 1; simpl; lia. Qed.

Lemma sumSize_incl (l : list FileObject) :
  forall files,
    NoDup l -> incl l files -> Forall (fun f => 0 <= size f) files ->
    sumSize l <= sumSize files.
Proof.
  induction l as [|x l IH]; intros files Hnd Hincl Hpos.
  - simpl. now apply sumSize_nonneg.
  - apply NoDup_cons_iff in Hnd as [Hx Hnd].
    destruct (in_split x files (Hincl x (or_introl eq_refl))) as (a & b & ->).
    rewrite sumSize_app. simpl.
    assert (sumSize l <= sumSize (a ++ b)) as H.
    { apply IH; [assumption | |].
      - intros y Hy. specialize (Hincl y (or_intror Hy)).
        apply in_app_or in Hincl as [H|[H|H]]; apply in_or_app; auto.
        subst y. contradiction.
      - apply Forall_app in Hpos as [Ha Hb]. apply Forall_app.
        split; [assumption | now inversion Hb]. }
    rewrite sumSize_app in H. lia.
Qed.

Lemma In_size_le_sumSize (f : FileObject) (files : list FileObject) :
  Forall (fun f => 0 <= size f) files -> In f files -> size f <= sumSize files.
Proof.
  intros Hpos Hin.
  pose proof (sumSize_incl [f] files) as H. simpl in H. rewrite Z.add_0_r in H.
  apply H; [repeat constructor; intros [] | | assumption].
  intros y [<-|[]]. assumption.
Qed.

Section Fitting.
Variable files : list FileObject.
Hypothesis files_fit : fits files.

(** Every new candidate is taken as it is. *)
Lemma addFile_fits (st : Selection) (f : FileObject) :
  within files st -> In f files -> ~ In (path f) (selectedPaths st) ->
  addFile st f = (mkSelection (selectedFiles st ++ [f]) (totalSize st + size f), true) /\
  within files (mkSelection (selectedFiles st ++ [f]) (totalSize st + size f)).
Proof.
  destruct files_fit as (Hnd & Hpos & Hsum).
  intros (Hc & Hsel & Hincl) Hin Hnew.
  assert (NoDup (map path (selectedFiles st ++ [f]))) as Hnd'.
  { rewrite map_app. apply NoDup_app; [assumption | repeat constructor; intros [] |].
    intros p Hp [<-|[]]. contradiction. }
  assert (incl (selectedFiles st ++ [f]) files) as Hincl'.
  { apply incl_app; [assumption|]. intros y [<-|[]]. assumption. }
  pose proof (sumSize_incl _ files (NoDup_map_inv path _ Hnd') Hincl' Hpos) as Hle.
  rewrite sumSize_app in Hle. simpl in Hle. unfold consistent in Hc.
  pose proof (In_size_le_sumSize f files Hpos Hin).
  split.
  - apply addFile_accepted; rewrite ?MAX_FILE_SIZE_value, ?MAX_TOTAL_CONTENT_value in *; lia.
  - repeat split; try assumption.
    unfold consistent. cbn [totalSize selectedFiles]. rewrite sumSize_app. simpl. lia.
Qed.

Lemma addEach_fits (l : list FileObject) :
  forall st,
    within files st -> incl l files -> NoDup (map path l) ->
    (forall f, In f l -> ~ In (path f) (selectedPaths st)) ->
    selectedFiles (addEach st l) = selectedFiles st ++ l /\
    within files (addEach st l).
Proof.
  induction l as [|f l IH]; intros st Hw Hincl Hnd Hnew.
  - simpl. now rewrite app_nil_r.
  - apply NoDup_cons_iff in Hnd as [Hf Hnd].
    destruct (addFile_fits st f Hw (Hincl f (or_introl eq_refl))
                (Hnew f (or_introl eq_refl))) as [E Hw'].
    rewrite addEach_cons, E. cbn [fst snd].
    destruct (IH _ Hw') as [Hsel Hw''].
    + intros y Hy. apply Hincl. now right.
    + assumption.
    + intros y Hy. unfold selectedPaths. cbn [selectedFiles]. rewrite map_app.
      intros Hin. apply in_app_or in Hin as [Hin|[Hin|[]]].
      * now apply (Hnew y (or_intror Hy)).
      * apply Hf. rewrite Hin. now apply in_map.
    + split; [|assumption]. rewrite Hsel. cbn [selectedFiles].
      now rewrite <- app_assoc.
Qed.

Lemma addSourceFiles_fits (l : list FileObject) :
  forall st count,
    within files st -> incl l files -> NoDup (map path l) -> 0 <= count ->
    selectedFiles (addSourceFiles st count l) =
      selectedFiles st
      ++ firstn (Z.to_nat (20 - count)) (filter (notSelected (selectedFiles st)) l) /\
    within files (addSourceFiles st count l).
Proof.
  induction l as [|f l IH]; intros st count Hw Hincl Hnd Hcount.
  - simpl. rewrite firstn_nil, app_nil_r. now split.
  - apply NoDup_cons_iff in Hnd as [Hf Hnd].
    assert (incl l files) as Hincl' by (intros y Hy; apply Hincl; now right).
    simpl addSourceFiles. destruct (Z.geb_spec count 20) as [Hfull|Hroom].
    + replace (Z.to_nat (20 - count)) with 0%nat by lia.
      simpl. rewrite app_nil_r. now split.
    + simpl filter. unfold notSelected at 1.
      destruct (alreadySelected (path f) (selectedFiles st)) eqn:E; simpl negb; cbv iota.
      * now apply IH.
      * assert (~ In (path f) (selectedPaths st)) as Hnew.
        { intros H. apply alreadySelected_In in H. congruence. }
        destruct (addFile_fits st f Hw (Hincl f (or_introl eq_refl)) Hnew) as [Ef Hw'].
        rewrite Ef. destruct (IH _ (count + 1) Hw' Hincl' Hnd ltac:(lia)) as [Hsel Hw''].
        split; [|assumption]. rewrite Hsel. cbn [selectedFiles].
        replace (Z.to_nat (20 - count)) with (S (Z.to_nat (20 - (count + 1)))) by lia.
        simpl firstn. rewrite <- app_assoc. simpl app. do 3 f_equal.
        apply filter_ext_in. intros y Hy. unfold notSelected, alreadySelected, JS.some.
        rewrite existsb_app. simpl. rewrite orb_false_r.
        destruct (String.eqb_spec (path f) (path y)) as [Heq|Hne];
          [|now rewrite orb_false_r].
        exfalso. apply Hf. rewrite Heq. now apply in_map.
Qed.

End Fitting.





(** The candidates of a tier are not yet selected when the tier starts. *)
Lemma priority2_new (files : list FileObject) (f : FileObject) :
  In f (priority2 files) -> ~ In (path f) (selectedPaths (afterPriority1 files)).
Proof.
  intros Hf Hin. apply filter_In in Hf as [_ Hf].
  pose proof (paths_afterPriority1 files) as H1. rewrite Forall_forall in H1.
  apply H1, priority1_not_priority2 in Hin. unfold isPriority2, nameIn in *. congruence.
Qed.

Lemma entryPoints_new (files : list FileObject) (f : FileObject) :
  In f (entryPoints files) -> ~ In (path f) (selectedPaths (afterPriority2 files)).
Proof.
  intros Hf Hin. apply sort_In, filter_In in Hf as [_ Hf].
  pose proof (paths_afterPriority2 files) as H2. rewrite Forall_forall in H2.
  destruct (H2 _ Hin) as [H|H];
    [apply priority1_not_entryPoint in H | apply priority2_not_entryPoint in H];
    unfold isEntryPoint, nameIn in *; congruence.
Qed.

Lemma rootFiles_spec (lc : string -> string -> Z) (sel files : list FileObject)
    (f : FileObject) :
  In f (rootFiles lc sel files) ->
  In f files /\ notSelected sel f = true /\ depth (path f) <= 2.
Proof.
  unfold rootFiles, JS.slice0. intros Hf. apply In_firstn in Hf.
  apply sort_In, filter_In in Hf as [Hf Hd]. apply filter_In in Hf as [Hf Hn].
  repeat split; try assumption. now apply Z.leb_le.
Qed.

Lemma NoDup_rootFiles (lc : string -> string -> Z) (sel files : list FileObject) :
  NoDup (map path files) -> NoDup (map path (rootFiles lc sel files)).
Proof.
  intros H. unfold rootFiles, JS.slice0. rewrite <- firstn_map. apply NoDup_firstn.
  now apply NoDup_map_sort, NoDup_map_filter, NoDup_map_filter.
Qed.

Section FittingRun.
Variable localeCompare : string -> string -> Z.
Variable files : list FileObject.
Hypothesis files_fit : fits files.

Lemma fitting_NoDup : NoDup (map path files).
Proof. exact (proj1 files_fit). Qed.

Lemma afterPriority1_fits :
  selectedFiles (afterPriority1 files) = priority1 files /\
  within files (afterPriority1 files).
Proof.
  unfold afterPriority1.
  apply (addEach_fits files files_fit (priority1 files) emptySelection).
  - repeat split; [constructor | intros x []].
  - apply incl_filter.
  - apply NoDup_map_filter, fitting_NoDup.
  - intros f _ [].
Qed.

Lemma afterPriority2_fits :
  selectedFiles (afterPriority2 files) = priority1 files ++ priority2 files /\
  within files (afterPriority2 files).
Proof.
  destruct afterPriority1_fits as [H1 Hw]. unfold afterPriority2. rewrite <- H1.
  apply (addEach_fits files files_fit); try assumption.
  - apply incl_filter.
  - apply NoDup_map_filter, fitting_NoDup.
  - apply priority2_new.
Qed.

Lemma afterEntryPoints_fits :
  selectedFiles (afterEntryPoints files) = namedTiers files /\
  within files (afterEntryPoints files).
Proof.
  destruct afterPriority2_fits as [H2 Hw]. unfold afterEntryPoints, namedTiers.
  rewrite app_assoc, <- H2.
  apply (addEach_fits files files_fit); try assumption.
  - intros f Hf. apply sort_In in Hf. now apply incl_filter in Hf.
  - apply NoDup_map_sort, NoDup_map_filter, fitting_NoDup.
  - apply entryPoints_new.
Qed.

Lemma afterSourceFiles_fits :
  selectedFiles (afterSourceFiles files) = fourTiers files /\
  within files (afterSourceFiles files).
Proof.
  destruct afterEntryPoints_fits as [H3 Hw]. unfold afterSourceFiles, fourTiers, sourceTier.
  rewrite <- H3.
  apply (addSourceFiles_fits files files_fit (sourceFiles files) _ 0); try assumption.
  - intros f Hf. apply sort_In in Hf. now apply incl_filter in Hf.
  - apply NoDup_map_sort, NoDup_map_filter, fitting_NoDup.
  - lia.
Qed.

Lemma afterRootFiles_fits :
  selectedFiles (afterRootFiles localeCompare files) = fullSelection localeCompare files /\
  within files (afterRootFiles localeCompare files).
Proof.
  destruct afterSourceFiles_fits as [H4 Hw].
  unfold afterRootFiles, fullSelection, fallbackPass.
  rewrite <- H4. destruct (_ <? 5); [|now rewrite app_nil_r].
  apply (addEach_fits files files_fit); try assumption.
  - intros f Hf. now apply rootFiles_spec in Hf.
  - apply NoDup_rootFiles, fitting_NoDup.
  - intros f Hf. apply rootFiles_spec in Hf as (_ & Hf & _). now apply notSelected_In.
Qed.

(** The output of a run on a fitting input fits as well. *)
Lemma selectKeyFiles_fits : fits (selectKeyFiles localeCompare files).
Proof.
  destruct afterRootFiles_fits as [_ (Hc & Hnd & Hincl)].
  pose proof files_fit as (_ & Hpos & Hsum). unfold selectKeyFiles.
  repeat split.
  - exact Hnd.
  - rewrite Forall_forall in Hpos |- *. intros f Hf. now apply Hpos, Hincl.
  - pose proof (sumSize_incl _ files (NoDup_map_inv path _ Hnd) Hincl Hpos). lia.
Qed.

End FittingRun.


Lemma notSelected_app (a b : list FileObject) (f : FileObject) :
  notSelected (a ++ b) f = notSelected a f && notSelected b f.
Proof.
  unfold notSelected, alreadySelected, JS.some. rewrite existsb_app. apply negb_orb.
Qed.


Section Reselect.
Variable localeCompare : string -> string -> Z.
Variable files : list FileObject.
Hypothesis localeCompare_total : JS.total localeCompare.
















End Reselect.



Lemma callsEach_cons (st : Selection) (f : FileObject) (rest : list FileObject) :
  callsEach st (f :: rest) =
  (st, f) :: (if snd (addFile st f) then callsEach (fst (addFile st f)) rest else []).
Proof. simpl. now destruct (addFile st f). Qed.


(** Appending a record whose path is not that of [y] does not change
    whether [y] is selected. *)
Lemma notSelected_after_addFile (st : Selection) (f y : FileObject) :
  path f <> path y ->
  notSelected (selectedFiles (fst (addFile st f))) y = notSelected (selectedFiles st) y.
Proof.
  intros Hne.
  assert (forall r, path r = path f ->
                    notSelected (selectedFiles st ++ [r]) y = notSelected (selectedFiles st) y)
    as Hpush.
  { intros r Hr. rewrite notSelected_app. unfold notSelected at 2.
    unfold alreadySelected, JS.some. simpl. rewrite Hr.
    destruct (String.eqb_spec (path f) (path y)); [contradiction|].
    simpl. apply andb_true_r. }
  addFile_cases st f; cbn [fst selectedFiles]; [|reflexivity|]; now apply Hpush.
Qed.

(** The loop of the source-directory tier is the plain loop over the
    first candidates, up to the counter, that are not selected when it
    starts. *)
Lemma addSourceFiles_as_addEach (l : list FileObject) :
  forall st count,
    NoDup (map path l) -> 0 <= count ->
    addSourceFiles st count l =
      addEach st (firstn (Z.to_nat (20 - count))
                         (filter (notSelected (selectedFiles st)) l)) /\
    callsSourceFiles st count l =
      callsEach st (firstn (Z.to_nat (20 - count))
                           (filter (notSelected (selectedFiles st)) l)).
Proof.
  induction l as [|f l IH]; intros st count Hnd Hcount.
  - simpl. rewrite firstn_nil. now split.
  - apply NoDup_cons_iff in Hnd as [Hf Hnd].
    cbn [addSourceFiles callsSourceFiles].
    destruct (Z.geb_spec count 20) as [Hfull|Hroom].
    + replace (Z.to_nat (20 - count)) with 0%nat by lia. now split.
    + cbn [filter].
      assert (notSelected (selectedFiles st) f
              = negb (alreadySelected (path f) (selectedFiles st))) as Hneg by reflexivity.
      rewrite Hneg.
      destruct (alreadySelected (path f) (selectedFiles st)) eqn:E; cbn [negb].
      * now apply IH.
      * replace (Z.to_nat (20 - count)) with (S (Z.to_nat (20 - (count + 1)))) by lia.
        cbn [firstn]. rewrite addEach_cons, callsEach_cons.
        destruct (IH (fst (addFile st f)) (count + 1) Hnd ltac:(lia)) as [IH1 IH2].
        assert (filter (notSelected (selectedFiles (fst (addFile st f)))) l
                = filter (notSelected (selectedFiles st)) l) as Hfilter.
        { apply filter_ext_in. intros y Hy. apply notSelected_after_addFile.
          intros Heq. apply Hf. rewrite Heq. now apply in_map. }
        rewrite Hfilter in IH1, IH2.
        destruct (addFile st f) as [st' [|]]; cbn [fst snd] in *.
        -- split; [exact IH1 | now rewrite IH2].
        -- now split.
Qed.

Section AllTaken.
Variable localeCompare : string -> string -> Z.
Variable files : list FileObject.
Hypothesis files_NoDup : NoDup (map path files).
Hypothesis all_taken : takesEveryCandidate localeCompare files = true.





Hypothesis localeCompare_total : JS.total localeCompare.


End AllTaken.

(** An input that fits the budget as a whole is a case of it: every call
    of the run accepts. *)
Section FittingCalls.
Variable localeCompare : string -> string -> Z.
Variable files : list FileObject.
Hypothesis files_fit : fits files.

Lemma accepts_fits (st : Selection) (f : FileObject) :
  within files st -> In f files -> ~ In (path f) (selectedPaths st) ->
  accepts st f = true.
Proof.
  pose proof files_fit as (Hnd & Hpos & Hsum).
  intros (Hc & Hsel & Hincl) Hin Hnew.
  assert (NoDup (map path (selectedFiles st ++ [f]))) as Hnd'.
  { rewrite map_app. apply NoDup_app; [assumption | repeat constructor; intros [] |].
    intros p Hp [<-|[]]. contradiction. }
  assert (incl (selectedFiles st ++ [f]) files) as Hincl'.
  { apply incl_app; [assumption|]. intros y [<-|[]]. assumption. }
  pose proof (sumSize_incl _ files (NoDup_map_inv path _ Hnd') Hincl' Hpos) as Hle.
  rewrite sumSize_app in Hle. simpl in Hle. unfold consistent in Hc.
  pose proof (In_size_le_sumSize f files Hpos Hin).
  unfold accepts.
  destruct (Z.gtb_spec (size f) MAX_FILE_SIZE);
    [rewrite ?MAX_FILE_SIZE_value, ?MAX_TOTAL_CONTENT_value in *; lia|].
  destruct (Z.gtb_spec (totalSize st + size f) MAX_TOTAL_CONTENT); [lia | reflexivity].
Qed.

Lemma callsEach_fits (l : list FileObject) :
  forall st,
    within files st -> incl l files -> NoDup (map path l) ->
    (forall f, In f l -> ~ In (path f) (selectedPaths st)) ->
    forallb (fun call => accepts (fst call) (snd call)) (callsEach st l) = true.
Proof.
  induction l as [|f l IH]; intros st Hw Hincl Hnd Hnew; [reflexivity|].
  apply NoDup_cons_iff in Hnd as [Hf Hnd].
  destruct (addFile_fits files files_fit st f Hw (Hincl f (or_introl eq_refl))
              (Hnew f (or_introl eq_refl))) as [E Hw'].
  rewrite callsEach_cons, E. cbn [forallb fst snd].
  rewrite (accepts_fits st f Hw (Hincl f (or_introl eq_refl)) (Hnew f (or_introl eq_refl))).
  apply IH; try assumption.
  - intros y Hy. apply Hincl. now right.
  - intros y Hy. unfold selectedPaths. cbn [selectedFiles]. rewrite map_app.
    intros Hin. apply in_app_or in Hin as [Hin|[Hin|[]]].
    + now apply (Hnew y (or_intror Hy)).
    + apply Hf. rewrite Hin. now apply in_map.
Qed.

Lemma fits_takesEveryCandidate : takesEveryCandidate localeCompare files = true.
Proof.
  pose proof (fitting_NoDup files files_fit) as Hnd.
  destruct (afterPriority1_fits files files_fit) as [S1 W1].
  destruct (afterPriority2_fits files files_fit) as [S2 W2].
  destruct (afterEntryPoints_fits files files_fit) as [S3 W3].
  destruct (afterSourceFiles_fits files files_fit) as [S4 W4].
  unfold takesEveryCandidate, calls. rewrite !forallb_app.
  repeat (apply andb_true_intro; split).
  - apply callsEach_fits.
    + repeat split; [constructor | intros x []].
    + apply incl_filter.
    + now apply NoDup_map_filter.
    + intros f _ [].
  - apply callsEach_fits; [assumption | apply incl_filter | now apply NoDup_map_filter |].
    apply priority2_new.
  - apply callsEach_fits; [assumption | | |].
    + intros f Hf. apply sort_In in Hf. now apply incl_filter in Hf.
    + now apply NoDup_map_sort, NoDup_map_filter.
    + apply entryPoints_new.
  - destruct (addSourceFiles_as_addEach (sourceFiles files) (afterEntryPoints files) 0)
      as [_ ->]; [now apply NoDup_map_sort, NoDup_map_filter | lia |].
    apply callsEach_fits; [assumption | | |].
    + intros f Hf. apply In_firstn, filter_In in Hf as [Hf _].
      apply sort_In in Hf. now apply incl_filter in Hf.
    + rewrite <- firstn_map. apply NoDup_firstn.
      now apply NoDup_map_filter, NoDup_map_sort, NoDup_map_filter.
    + intros f Hf. apply In_firstn, filter_In in Hf as [_ Hf]. now apply notSelected_In.
  - cbv zeta. destruct (_ <? 5); [|reflexivity].
    apply callsEach_fits; [assumption | | |].
    + intros f Hf. now apply rootFiles_spec in Hf.
    + now apply NoDup_rootFiles.
    + intros f Hf. apply rootFiles_spec in Hf as (_ & Hf & _). now apply notSelected_In.
Qed.

End FittingCalls.



(** The input of the witness does not fit the budget as a whole: the
    data file alone is larger than the aggregate cap. *)
Lemma withDeepData_over_budget :
  sumSize Examples.withDeepData > MAX_TOTAL_CONTENT /\
  map path (selectKeyFiles codeUnitCompare Examples.withDeepData)
    = ["README.md"; "package.json"; "index.js"]%string.
Proof. split; vm_compute; reflexivity. Qed.


(** With five documentation files in the output, the second selection
    does not run its fallback pass and drops [todo.txt]. The fallback pass
    of the first selection sorts five names that the order of the code
    units and the alphabetical order of a locale put in the same order. *)
Lemma second_selection_drops_a_record :
  sumSize (selectKeyFiles codeUnitCompare Examples.cutShortWide) <= MAX_TOTAL_CONTENT /\
  map path (selectKeyFiles codeUnitCompare Examples.cutShortWide)
    = ["README.md"; "CONTRIBUTING.md"; "LICENSE.md"; "README"; "README.txt";
       "todo.txt"]%string /\
  map path (selectKeyFiles codeUnitCompare
              (selectKeyFiles codeUnitCompare Examples.cutShortWide))
    = ["README.md"; "CONTRIBUTING.md"; "LICENSE.md"; "README"; "README.txt"]%string.
Proof.
  split; [vm_compute; discriminate|]. split; vm_compute; reflexivity.
Qed.

(** *** Invariants of a run *)

(** A property of the selection that every call of [addFile] on a record
    of the input keeps holds after the five passes, from whichever pass it
    held at first. *)
Section RunInvariant.
Variable localeCompare : string -> string -> Z.
Variable files : list FileObject.
Variable P : Selection -> Prop.
Hypothesis P_addFile :
  forall st f, In f files -> P st -> P (fst (addFile st f)).

Lemma addEach_invariant (l : list FileObject) :
  forall st, incl l files -> P st -> P (addEach st l).
Proof.
  induction l as [|f l IH]; intros st Hincl H; [assumption|].
  rewrite addEach_cons.
  pose proof (P_addFile st f (Hincl f (or_introl eq_refl)) H) as H'.
  destruct (snd (addFile st f)); [|assumption].
  apply IH; [|assumption]. intros y Hy. apply Hincl. now right.
Qed.

Lemma addSourceFiles_invariant (l : list FileObject) :
  forall st count, incl l files -> P st -> P (addSourceFiles st count l).
Proof.
  induction l as [|f l IH]; intros st count Hincl H; [assumption|].
  assert (incl l files) as Hincl' by (intros y Hy; apply Hincl; now right).
  simpl. destruct (count >=? 20); [assumption|].
  destruct (alreadySelected (path f) (selectedFiles st)); [now apply IH|].
  pose proof (P_addFile st f (Hincl f (or_introl eq_refl)) H) as H'.
  destruct (addFile st f) as [st' [|]]; [now apply IH | assumption].
Qed.

Lemma run_from_afterSourceFiles :
  P (afterSourceFiles files) -> P (afterRootFiles localeCompare files).
Proof.
  intros H4. unfold afterRootFiles. destruct (_ <? 5); [|assumption].
  apply addEach_invariant; [|assumption].
  intros f Hf. now apply rootFiles_spec in Hf.
Qed.

Lemma run_from_afterEntryPoints :
  P (afterEntryPoints files) -> P (afterRootFiles localeCompare files).
Proof.
  intros H3. apply run_from_afterSourceFiles, addSourceFiles_invariant; [|assumption].
  intros f Hf. apply sort_In in Hf. now apply incl_filter in Hf.
Qed.

Lemma run_from_afterPriority2 :
  P (afterPriority2 files) -> P (afterRootFiles localeCompare files).
Proof.
  intros H2. apply run_from_afterEntryPoints, addEach_invariant; [|assumption].
  intros f Hf. apply sort_In in Hf. now apply incl_filter in Hf.
Qed.

Lemma run_from_afterPriority1 :
  P (afterPriority1 files) -> P (afterRootFiles localeCompare files).
Proof.
  intros H1. apply run_from_afterPriority2, addEach_invariant; [apply incl_filter | assumption].
Qed.

Lemma run_invariant : P emptySelection -> P (afterRootFiles localeCompare files).
Proof.
  intros H0. apply run_from_afterPriority1, addEach_invariant; [apply incl_filter | assumption].
Qed.

End RunInvariant.

(** *** C1: what a rejection ends *)

Lemma addEach_single (st : Selection) (f : FileObject) :
  addEach st [f] = fst (addFile st f).
Proof. rewrite addEach_cons. now destruct (snd (addFile st f)). Qed.

(** A call that rejects is the last call of its loop, and the loop returns
    the selection of that call. *)
Lemma callsEach_rejected (l : list FileObject) :
  forall st0 st f,
    In (st, f) (callsEach st0 l) -> rejects st f -> addEach st0 l = st.
Proof.
  induction l as [|g l IH]; intros st0 st f Hin Hrej; [destruct Hin|].
  rewrite callsEach_cons in Hin. rewrite addEach_cons.
  destruct Hin as [E|Hin].
  - injection E as E1 E2. subst st0 g. now rewrite (addFile_rejected _ _ Hrej).
  - destruct (snd (addFile st0 g)); [now apply (IH _ _ f) | destruct Hin].
Qed.

Lemma callsSourceFiles_rejected (l : list FileObject) :
  forall st0 count st f,
    In (st, f) (callsSourceFiles st0 count l) -> rejects st f ->
    addSourceFiles st0 count l = st.
Proof.
  induction l as [|g l IH]; intros st0 count st f Hin Hrej; [destruct Hin|].
  cbn [callsSourceFiles addSourceFiles] in Hin |- *.
  destruct (count >=? 20); [destruct Hin|].
  destruct (alreadySelected (path g) (selectedFiles st0)); [now apply (IH _ _ _ f)|].
  destruct (addFile st0 g) as [st' ok] eqn:E. destruct Hin as [E'|Hin].
  - injection E' as E1 E2. subst st0 g.
    rewrite (addFile_rejected _ _ Hrej) in E. now injection E as <- <-.
  - destruct ok; [now apply (IH _ _ _ f) | destruct Hin].
Qed.

Lemma appendedSince_refl (files : list FileObject) (f : FileObject) (st : Selection) :
  appendedSince files f st st.
Proof. exists []. rewrite app_nil_r. repeat split; [constructor | lia]. Qed.

(** After [f] was rejected, a call of [addFile] appends nothing, a
    truncated copy, or a file smaller than [f]. *)
Lemma addFile_appendedSince (files : list FileObject) (f : FileObject)
    (st st1 : Selection) (g : FileObject) :
  rejects st f -> In g files -> 0 <= size g ->
  appendedSince files f st st1 ->
  appendedSince files f st (fst (addFile st1 g)).
Proof.
  intros [Hsmall Hover] Hin Hpos (more & Hsel & Hall & Htot).
  addFile_cases st1 g; cbn [fst].
  - exists (more ++ [truncated g]). cbn [selectedFiles totalSize].
    split; [now rewrite Hsel, app_assoc|]. split.
    + apply Forall_app. split; [assumption|]. constructor; [|constructor].
      left. exists g. now repeat split.
    + pose proof (size_truncated_bounds g). lia.
  - exists more. now repeat split.
  - exists (more ++ [g]). cbn [selectedFiles totalSize].
    split; [now rewrite Hsel, app_assoc|]. split.
    + apply Forall_app. split; [assumption|]. constructor; [|constructor].
      right. split; [assumption | lia].
    + lia.
Qed.

(** The selection of a run, seen from a call that rejected [f]. *)
Lemma rejection_limits_the_run
    (localeCompare : string -> string -> Z) (files : list FileObject)
    (st : Selection) (f : FileObject) :
  Forall (fun g => 0 <= size g) files ->
  In (st, f) (calls localeCompare files) ->
  rejects st f ->
  appendedSince files f st (afterRootFiles localeCompare files).
Proof.
  intros Hpos Hin Hrej. rewrite Forall_forall in Hpos.
  assert (forall st1 g, In g files -> appendedSince files f st st1 ->
                        appendedSince files f st (fst (addFile st1 g))) as HP.
  { intros st1 g Hg H. apply addFile_appendedSince; auto. }
  unfold calls in Hin.
  apply in_app_or in Hin as [Hin|Hin].
  { apply callsEach_rejected in Hin; [|assumption].
    apply (run_from_afterPriority1 localeCompare files _ HP).
    unfold afterPriority1. rewrite Hin. apply appendedSince_refl. }
  apply in_app_or in Hin as [Hin|Hin].
  { apply callsEach_rejected in Hin; [|assumption].
    apply (run_from_afterPriority2 localeCompare files _ HP).
    unfold afterPriority2. rewrite Hin. apply appendedSince_refl. }
  apply in_app_or in Hin as [Hin|Hin].
  { apply callsEach_rejected in Hin; [|assumption].
    apply (run_from_afterEntryPoints localeCompare files _ HP).
    unfold afterEntryPoints. rewrite Hin. apply appendedSince_refl. }
  apply in_app_or in Hin as [Hin|Hin].
  { apply callsSourceFiles_rejected in Hin; [|assumption].
    apply (run_from_afterSourceFiles localeCompare files _ HP).
    unfold afterSourceFiles. rewrite Hin. apply appendedSince_refl. }
  cbv zeta in Hin. unfold afterRootFiles. cbv zeta.
  destruct (_ <? 5); [|destruct Hin].
  apply callsEach_rejected in Hin; [|assumption].
  rewrite Hin. apply appendedSince_refl.
Qed.

(** The calls of a run are made on the candidates that the run
    evaluates. *)
Lemma calls_evaluated (localeCompare : string -> string -> Z) (files : list FileObject) :
  map snd (calls localeCompare files) = evaluated localeCompare files.
Proof.
  assert (forall l st, map snd (callsEach st l) = evaluatedEach st l) as HE.
  { induction l as [|f l IH]; intros st; [reflexivity|].
    simpl. destruct (addFile st f) as [st' [|]]; simpl; [now rewrite IH | reflexivity]. }
  assert (forall l st count,
            map snd (callsSourceFiles st count l) = evaluatedSourceFiles st count l) as HS.
  { induction l as [|f l IH]; intros st count; [reflexivity|].
    simpl. destruct (count >=? 20); [reflexivity|].
    destruct (alreadySelected (path f) (selectedFiles st)); [apply IH|].
    destruct (addFile st f) as [st' [|]]; simpl; [now rewrite IH | reflexivity]. }
  unfold calls, evaluated. rewrite !map_app, !HE, HS. cbv zeta.
  destruct (_ <? 5); [now rewrite HE | reflexivity].
Qed.

(** C1 (as amended). A rejection ends the pass in which it occurs: when
    the candidates before [f] were all taken and [addFile] rejects [f], the
    pass returns the selection as it was before [f], so neither [f] nor any
    later candidate of that pass is appended; the same holds in the loop of
    the source-directory tier. A rejection does not end the run, but it
    limits what the rest of the run appends: when no size of the input is
    negative and a call of [addFile] of the run rejects [f], the output is
    the selection of that call followed only by truncated copies of files
    over the per-file cap and by files of the input strictly smaller than
    [f]. *)
Theorem C1_rejection_ends_the_pass :
  (forall (st : Selection) (taken : list FileObject) (f : FileObject)
          (rest : list FileObject),
     completes st taken = true ->
     rejects (addEach st taken) f ->
     addEach st (taken ++ f :: rest) = addEach st taken) /\
  (forall (st : Selection) (count : Z) (f : FileObject) (rest : list FileObject),
     alreadySelected (path f) (selectedFiles st) = false ->
     rejects st f ->
     addSourceFiles st count (f :: rest) = st) /\
  (forall (localeCompare : string -> string -> Z) (files : list FileObject)
          (st : Selection) (f : FileObject),
     Forall (fun g => 0 <= size g) files ->
     In (st, f) (calls localeCompare files) ->
     rejects st f ->
     exists more,
       selectKeyFiles localeCompare files = selectedFiles st ++ more /\
       Forall (fun r =>
                 (exists g, In g files /\ size g > MAX_FILE_SIZE /\ r = truncated g) \/
                 (In r files /\ size r < size f)) more).
Proof.
  split; [|split].
  - intros st taken f rest Hall Hrej.
    rewrite addEach_app, Hall, addEach_cons, (addFile_rejected _ f Hrej).
    reflexivity.
  - intros st count f rest Hnew Hrej. simpl.
    destruct (count >=? 20); [reflexivity|].
    now rewrite Hnew, (addFile_rejected _ f Hrej).
  - intros localeCompare files st f Hpos Hin Hrej.
    destruct (rejection_limits_the_run localeCompare files st f Hpos Hin Hrej)
      as (more & Hsel & Hall & _).
    exists more. split; [exact Hsel | exact Hall].
Qed.

(** The documentation tier rejects [LICENSE] after taking [README.md];
    the configuration tier then appends [package.json]. *)
Lemma C1_later_pass_appends_after_rejection :
  priority1 Examples.rejectionThenFit = [Examples.readme40k; Examples.license20k] /\
  completes emptySelection [Examples.readme40k] = true /\
  rejects (addEach emptySelection [Examples.readme40k]) Examples.license20k /\
  selectKeyFiles codeUnitCompare Examples.rejectionThenFit =
    [Examples.readme40k; Examples.packageJson].
Proof.
  split; [|split; [|split; [split|]]]; try files_by_computation.
  vm_compute. discriminate.
Qed.


Lemma C1_rejection_ends_the_pass_witness :
  completes emptySelection [Examples.readme40k] = true /\
  rejects (addEach emptySelection [Examples.readme40k]) Examples.license20k /\
  addEach emptySelection ([Examples.readme40k] ++ Examples.license20k :: [Examples.packageJson])
    = addEach emptySelection [Examples.readme40k] /\
  addSourceFiles (addEach emptySelection [Examples.readme40k]) 0
      [Examples.license20k; Examples.packageJson]
    = addEach emptySelection [Examples.readme40k] /\
  Forall (fun g => 0 <= size g) Examples.rejectionThenFit /\
  In (addEach emptySelection [Examples.readme40k], Examples.license20k)
     (calls codeUnitCompare Examples.rejectionThenFit) /\
  exists more,
    selectKeyFiles codeUnitCompare Examples.rejectionThenFit
      = selectedFiles (addEach emptySelection [Examples.readme40k]) ++ more /\
    Forall (fun r =>
              (exists g, In g Examples.rejectionThenFit /\
                         size g > MAX_FILE_SIZE /\ r = truncated g) \/
              (In r Examples.rejectionThenFit /\ size r < size Examples.license20k)) more.
Proof.
  assert (completes emptySelection [Examples.readme40k] = true) as H1
    by (vm_compute; reflexivity).
  assert (rejects (addEach emptySelection [Examples.readme40k]) Examples.license20k) as H2
    by (split; vm_compute; [discriminate | reflexivity]).
  assert (Forall (fun g => 0 <= size g) Examples.rejectionThenFit) as H3
    by (repeat constructor; vm_compute; discriminate).
  assert (In (addEach emptySelection [Examples.readme40k], Examples.license20k)
             (calls codeUnitCompare Examples.rejectionThenFit)) as H4.
  { assert (priority1 Examples.rejectionThenFit
            = [Examples.readme40k; Examples.license20k]) as Hp by files_by_computation.
    assert (snd (addFile emptySelection Examples.readme40k) = true) as Hok
      by (vm_compute; reflexivity).
    unfold calls. apply in_or_app. left. rewrite Hp, callsEach_cons, Hok.
    right. rewrite callsEach_cons, addEach_single. left. reflexivity. }
  split; [exact H1|]. split; [exact H2|]. split.
  { exact (proj1 C1_rejection_ends_the_pass emptySelection [Examples.readme40k]
             Examples.license20k [Examples.packageJson] H1 H2). }
  split.
  { apply (proj1 (proj2 C1_rejection_ends_the_pass)); [vm_compute; reflexivity | exact H2]. }
  split; [exact H3|]. split; [exact H4|].
  exact (proj2 (proj2 C1_rejection_ends_the_pass) codeUnitCompare
           Examples.rejectionThenFit _ Examples.license20k H3 H4 H2).
Defined.

(** * Further properties of the selector *)


Lemma addFile_fromInput (files : list FileObject) (st : Selection) (f : FileObject) :
  In f files ->
  Forall (fromInput files) (selectedFiles st) ->
  Forall (fromInput files) (selectedFiles (fst (addFile st f))).
Proof.
  intros Hin H. addFile_cases st f; cbn [fst selectedFiles]; try assumption;
    apply Forall_app; split; try assumption; repeat constructor; exists f; auto.
Qed.

(** X1. The selector invents nothing: every record of the output is a
    record of the input or the truncated copy of an input record that is
    over the per-file cap; so the empty input gives the empty output. *)
Theorem selectKeyFiles_from_input (localeCompare : string -> string -> Z) :
  (forall (files : list FileObject) (r : FileObject),
     In r (selectKeyFiles localeCompare files) ->
     exists f, In f files /\ (r = f \/ (size f > MAX_FILE_SIZE /\ r = truncated f))) /\
  selectKeyFiles localeCompare [] = [].
Proof.
  split; [|reflexivity].
  intros files r Hr.
  pose proof (run_invariant localeCompare files
                (fun st => Forall (fromInput files) (selectedFiles st))
                (addFile_fromInput files) (Forall_nil _)) as H.
  rewrite Forall_forall in H. exact (H r Hr).
Qed.

Lemma selectKeyFiles_from_input_witness :
  In Examples.packageJson (selectKeyFiles codeUnitCompare Examples.rejectionThenFit) /\
  exists f, In f Examples.rejectionThenFit /\
            (Examples.packageJson = f \/
             (size f > MAX_FILE_SIZE /\ Examples.packageJson = truncated f)).
Proof.
  assert (In Examples.packageJson (selectKeyFiles codeUnitCompare Examples.rejectionThenFit))
    as H by files_by_computation.
  split; [exact H|].
  exact (proj1 (selectKeyFiles_from_input codeUnitCompare) _ _ H).
Defined.

Lemma selectKeyFiles_under_cap
    (localeCompare : string -> string -> Z) (files : list FileObject) :
  Forall (fun f => size f <= MAX_FILE_SIZE) files ->
  sumSize (selectKeyFiles localeCompare files) <= MAX_TOTAL_CONTENT /\
  incl (selectKeyFiles localeCompare files) files.
Proof.
  intros Hsmall. rewrite Forall_forall in Hsmall.
  pose proof (run_invariant localeCompare files
                (fun st => totalSize st <= MAX_TOTAL_CONTENT /\
                           incl (selectedFiles st) files)) as H.
  pose proof (consistent_afterRootFiles localeCompare files) as Hc.
  unfold consistent in Hc. unfold selectKeyFiles. rewrite <- Hc. apply H.
  - intros st f Hin [Htot Hincl]. specialize (Hsmall f Hin).
    addFile_cases st f; cbn [fst selectedFiles totalSize].
    + lia.
    + now split.
    + split; [lia|]. apply incl_app; [assumption|]. intros y [<-|[]]. assumption.
  - split; [rewrite MAX_TOTAL_CONTENT_value; simpl; lia | intros y []].
Qed.

(** X2. Without a file over the per-file cap, the aggregate cap is a hard
    cap: the sizes of the output sum to at most [MAX_TOTAL_CONTENT], and the
    output is made of unmodified records of the input. *)
Theorem selectKeyFiles_hard_cap
    (localeCompare : string -> string -> Z) (files : list FileObject) :
  Forall (fun f => size f <= MAX_FILE_SIZE) files ->
  sumSize (selectKeyFiles localeCompare files) <= MAX_TOTAL_CONTENT /\
  incl (selectKeyFiles localeCompare files) files.
Proof. apply selectKeyFiles_under_cap. Qed.

Lemma selectKeyFiles_hard_cap_witness :
  Forall (fun f => size f <= MAX_FILE_SIZE) Examples.rejectionThenFit /\
  sumSize (selectKeyFiles codeUnitCompare Examples.rejectionThenFit) <= MAX_TOTAL_CONTENT.
Proof.
  assert (Forall (fun f => size f <= MAX_FILE_SIZE) Examples.rejectionThenFit) as H
    by (repeat constructor; vm_compute; discriminate).
  split; [exact H|].
  exact (proj1 (selectKeyFiles_hard_cap codeUnitCompare Examples.rejectionThenFit H)).
Defined.

Lemma NoDup_map_inj (A B : Type) (g : A -> B) (l : list A) (a b : A) :
  NoDup (map g l) -> In a l -> In b l -> g a = g b -> a = b.
Proof.
  induction l as [|x l IH]; simpl; intros Hnd Ha Hb Hab; [contradiction|].
  apply NoDup_cons_iff in Hnd as [Hx Hnd].
  destruct Ha as [->|Ha], Hb as [->|Hb]; auto.
  - exfalso. apply Hx. rewrite Hab. now apply in_map.
  - exfalso. apply Hx. rewrite <- Hab. now apply in_map.
Qed.

(** X3. With distinct paths and no negative size, a file larger than the
    aggregate cap but not over the per-file cap is never selected: it is too
    large to fit and too small to be truncated. *)
Theorem selectKeyFiles_skips_sizes_between_caps
    (localeCompare : string -> string -> Z) (files : list FileObject) (f : FileObject) :
  NoDup (map path files) ->
  Forall (fun g => 0 <= size g) files ->
  In f files ->
  MAX_TOTAL_CONTENT < size f <= MAX_FILE_SIZE ->
  ~ In (path f) (map path (selectKeyFiles localeCompare files)).
Proof.
  intros Hnd Hpos Hf Hsize Hin. rewrite Forall_forall in Hpos.
  pose proof (run_invariant localeCompare files
    (fun st => 0 <= totalSize st /\
               forall r, In r (selectedFiles st) ->
                 exists g, In g files /\ path r = path g /\
                           (size g > MAX_FILE_SIZE \/ size g <= MAX_TOTAL_CONTENT))) as H.
  destruct H as [_ H].
  - intros st c Hc [Htot Hsel]. specialize (Hpos c Hc).
    pose proof (size_truncated_bounds c).
    addFile_cases st c; cbn [fst selectedFiles totalSize].
    + split; [lia|]. intros r Hr. apply in_app_or in Hr as [Hr|[<-|[]]]; [auto|].
      exists c. rewrite path_truncated. auto.
    + now split.
    + split; [lia|]. intros r Hr. apply in_app_or in Hr as [Hr|[<-|[]]]; [auto|].
      exists c. repeat split; try assumption. right. lia.
  - split; [simpl; lia | intros r []].
  - apply in_map_iff in Hin as (r & Hpath & Hr).
    destruct (H r Hr) as (g & Hg & Hrg & Hgsize).
    assert (g = f) as -> by (apply (NoDup_map_inj _ _ path files); congruence).
    lia.
Qed.

Lemma selectKeyFiles_skips_sizes_between_caps_witness :
  NoDup (map path Examples.shadowedIndex) /\
  Forall (fun g => 0 <= size g) Examples.shadowedIndex /\
  In Examples.mainJs Examples.shadowedIndex /\
  MAX_TOTAL_CONTENT < size Examples.mainJs <= MAX_FILE_SIZE /\
  ~ In (path Examples.mainJs)
       (map path (selectKeyFiles codeUnitCompare Examples.shadowedIndex)).
Proof.
  assert (NoDup (map path Examples.shadowedIndex)) as H1.
  { vm_compute. repeat constructor; simpl; intuition discriminate. }
  assert (Forall (fun g => 0 <= size g) Examples.shadowedIndex) as H2
    by (repeat constructor; vm_compute; discriminate).
  assert (In Examples.mainJs Examples.shadowedIndex) as H3 by (left; reflexivity).
  assert (MAX_TOTAL_CONTENT < size Examples.mainJs <= MAX_FILE_SIZE) as H4
    by (split; vm_compute; [reflexivity | discriminate]).
  split; [exact H1|]. split; [exact H2|]. split; [exact H3|]. split; [exact H4|].
  exact (selectKeyFiles_skips_sizes_between_caps codeUnitCompare Examples.shadowedIndex
           Examples.mainJs H1 H2 H3 H4).
Defined.

(** ** The shape of the output *)

Lemma addSourceFiles_paths (l : list FileObject) :
  forall st count, exists appended,
    selectedPaths (addSourceFiles st count l) = selectedPaths st ++ appended /\
    Z.of_nat (List.length appended) <= Z.max 0 (20 - count) /\
    incl appended (map path l).
Proof.
  induction l as [|f l IH]; intros st count.
  - exists []. rewrite app_nil_r. repeat split; [cbn [List.length]; lia | intros y []].
  - simpl addSourceFiles. destruct (Z.geb_spec count 20) as [Hfull|Hroom].
    + exists []. rewrite app_nil_r. repeat split; [cbn [List.length]; lia | intros y []].
    + destruct (alreadySelected (path f) (selectedFiles st)).
      * destruct (IH st count) as (app & H1 & H2 & H3). exists app.
        repeat split; try assumption. intros y Hy. right. now apply H3.
      * destruct (addFile_paths st f) as [[Hp Hr]|Hp];
          destruct (addFile st f) as [st' ok]; cbn [fst snd] in *.
        -- subst ok. exists []. rewrite Hp, app_nil_r.
           repeat split; [cbn [List.length]; lia | intros y []].
        -- destruct ok.
           ++ destruct (IH st' (count + 1)) as (app & H1 & H2 & H3).
              exists (path f :: app). rewrite H1, Hp, <- app_assoc.
              repeat split; [cbn [List.length]; lia|].
              intros y [<-|Hy]; [now left | right; now apply H3].
           ++ exists [path f]. rewrite Hp.
              repeat split; [cbn [List.length]; lia | intros y [<-|[]]; now left].
Qed.

(** X4. Tier precedence. The paths of the output are, in this order: a
    prefix of the documentation candidates, a prefix of the configuration
    candidates, a prefix of the entry-point candidates (sorted by depth), at
    most 20 paths of source-directory candidates, and at most 20 paths of
    depth 2 or less from the fallback pass, which adds nothing when the
    tiers have selected 5 files or more. *)
Theorem selectKeyFiles_tier_order
    (localeCompare : string -> string -> Z) (files : list FileObject) :
  exists docs configs entries sources roots,
    map path (selectKeyFiles localeCompare files)
      = docs ++ configs ++ entries ++ sources ++ roots /\
    (exists k, docs = map path (firstn k (priority1 files))) /\
    (exists k, configs = map path (firstn k (priority2 files))) /\
    (exists k, entries = map path (firstn k (entryPoints files))) /\
    incl sources (map path (sourceFiles files)) /\
    (List.length sources <= 20)%nat /\
    incl roots (map path files) /\
    Forall (fun p => depth p <= 2) roots /\
    (List.length roots <= 20)%nat /\
    ((5 <= List.length (docs ++ configs ++ entries ++ sources))%nat -> roots = []).
Proof.
  destruct (addEach_paths (priority1 files) emptySelection) as [k1 H1].
  destruct (addEach_paths (priority2 files) (afterPriority1 files)) as [k2 H2].
  destruct (addEach_paths (entryPoints files) (afterPriority2 files)) as [k3 H3].
  destruct (addSourceFiles_paths (sourceFiles files) (afterEntryPoints files) 0)
    as (src & H4 & Hlen & Hsrc).
  fold (afterPriority1 files) in H1. fold (afterPriority2 files) in H2.
  fold (afterEntryPoints files) in H3. fold (afterSourceFiles files) in H4.
  simpl app in H1. rewrite H3, H2, H1, <- !app_assoc in H4.
  set (R := rootFiles localeCompare (selectedFiles (afterSourceFiles files)) files).
  destruct (addEach_paths R (afterSourceFiles files)) as [k5 H5].
  assert (selectedPaths (afterRootFiles localeCompare files) =
          selectedPaths (afterSourceFiles files)
          ++ (if Z.of_nat (List.length (selectedFiles (afterSourceFiles files))) <? 5
              then map path (firstn k5 R) else [])) as Hfinal.
  { unfold afterRootFiles. fold R. destruct (_ <? 5); [exact H5 | now rewrite app_nil_r]. }
  exists (map path (firstn k1 (priority1 files))),
    (map path (firstn k2 (priority2 files))),
    (map path (firstn k3 (entryPoints files))), src,
    (if Z.of_nat (List.length (selectedFiles (afterSourceFiles files))) <? 5
     then map path (firstn k5 R) else []).
  split.
  { unfold selectKeyFiles. fold (selectedPaths (afterRootFiles localeCompare files)).
    rewrite Hfinal, H4, <- !app_assoc. reflexivity. }
  split; [now exists k1|]. split; [now exists k2|]. split; [now exists k3|].
  split; [exact Hsrc|]. split; [lia|].
  assert (forall p, In p (map path (firstn k5 R)) ->
                    In p (map path files) /\ depth p <= 2) as HR.
  { intros p Hp. apply in_map_iff in Hp as (f & <- & Hf).
    apply In_firstn in Hf. apply rootFiles_spec in Hf as (Hf & _ & Hd).
    split; [now apply in_map | assumption]. }
  assert (List.length (map path (firstn k5 R)) <= 20)%nat as HlenR.
  { rewrite length_map, length_firstn. unfold R, rootFiles, JS.slice0.
    rewrite length_firstn. lia. }
  split; [|split; [|split]].
  - destruct (_ <? 5); [|intros p []]. intros p Hp. now apply HR.
  - destruct (_ <? 5); [|constructor]. apply Forall_forall. intros p Hp. now apply HR.
  - destruct (_ <? 5); [exact HlenR | simpl; lia].
  - intros Hfive.
    assert (List.length (selectedPaths (afterSourceFiles files)) =
            List.length (selectedFiles (afterSourceFiles files))) as Hl
      by apply length_map.
    rewrite H4 in Hl. rewrite <- Hl.
    destruct (Z.ltb_spec (Z.of_nat (List.length
      (map path (firstn k1 (priority1 files)) ++ map path (firstn k2 (priority2 files))
       ++ map path (firstn k3 (entryPoints files)) ++ src))) 5); [lia | reflexivity].
Qed.

(** X5. When the input fits the budget as a whole, every candidate of
    every pass is taken: the output is the documentation files in input
    order, the configuration files in input order, the entry points by
    depth, the first 20 source-directory files not selected yet, and the
    fallback pass if these are fewer than 5 files; so every file that a
    named tier matches is in the output. *)
Theorem selectKeyFiles_when_input_fits
    (localeCompare : string -> string -> Z) (files : list FileObject) :
  fits files ->
  selectKeyFiles localeCompare files =
    (priority1 files ++ priority2 files ++ entryPoints files)
    ++ firstn 20 (filter (notSelected (priority1 files ++ priority2 files
                                       ++ entryPoints files))
                         (sourceFiles files))
    ++ fallbackPass localeCompare files /\
  (forall f, In f files ->
     isPriority1 f = true \/ isPriority2 f = true \/ isEntryPoint f = true ->
     In f (selectKeyFiles localeCompare files)).
Proof.
  intros Hfit. destruct (afterRootFiles_fits localeCompare files Hfit) as [Hout _].
  unfold selectKeyFiles. rewrite Hout.
  unfold fullSelection, fourTiers, sourceTier, namedTiers.
  split; [now rewrite <- !app_assoc|].
  intros f Hf Hnamed. rewrite <- !app_assoc.
  destruct Hnamed as [H|[H|H]].
  - apply in_or_app. left. apply filter_In. now split.
  - apply in_or_app. right. apply in_or_app. left. apply filter_In. now split.
  - apply in_or_app. right. apply in_or_app. right. apply in_or_app. left.
    apply sort_In, filter_In. now split.
Qed.

Lemma selectKeyFiles_when_input_fits_witness :
  fits Examples.fitting /\
  In Examples.indexJs (selectKeyFiles codeUnitCompare Examples.fitting).
Proof.
  assert (fits Examples.fitting) as Hfit.
  { split; [|split].
    - vm_compute. repeat constructor; simpl; intuition discriminate.
    - repeat constructor; vm_compute; discriminate.
    - vm_compute. discriminate. }
  split; [exact Hfit|].
  apply (proj2 (selectKeyFiles_when_input_fits codeUnitCompare Examples.fitting Hfit)).
  - right. right. right. left. reflexivity.
  - right. right. reflexivity.
Defined.

(** * Further properties of the chunker *)

Section ChunkerMore.
Import HuggingFace.

Lemma joinContents_chunkOf (gs : list (list FileObject)) :
  joinContents (map chunkOf gs) = render (List.concat gs).
Proof.
  induction gs as [|g gs IH]; [reflexivity|].
  simpl List.concat. rewrite render_app, <- IH. reflexivity.
Qed.

Lemma sumTotalSize_chunkOf (gs : list (list FileObject)) :
  sumTotalSize (map chunkOf gs) = sumSize (List.concat gs).
Proof.
  induction gs as [|g gs IH]; [reflexivity|].
  simpl List.concat. rewrite sumSize_app, <- IH. reflexivity.
Qed.

Lemma length_concat_nonempty (A : Type) (gs : list (list A)) :
  Forall (fun g => g <> []) gs -> (List.length gs <= List.length (List.concat gs))%nat.
Proof.
  induction 1 as [|g gs Hg _ IH]; [simpl; lia|].
  simpl List.concat. rewrite length_app. destruct g; [congruence | simpl in *; lia].
Qed.

Lemma chunkContent_totals (files : list FileObject) :
  joinContents (chunkContent files) = render files /\
  sumTotalSize (chunkContent files) = sumSize files /\
  (List.length (chunkContent files) <= List.length files)%nat.
Proof.
  pose proof (concat_groupsFrom files []) as Hcat. simpl in Hcat.
  rewrite chunkContent_groups, joinContents_chunkOf, sumTotalSize_chunkOf, length_map.
  unfold groups. rewrite Hcat. repeat split.
  rewrite <- Hcat at 2. apply length_concat_nonempty, groupsFrom_nonempty.
Qed.

(** X6. Chunking loses nothing: the contents of the chunks, one after the
    other, are the rendered blocks of all the files in input order; the
    [totalSize] fields sum to the sizes of the files; and there are never
    more chunks than files. *)
Theorem chunkContent_preserves_content (files : list FileObject) :
  joinContents (chunkContent files) = render files /\
  sumTotalSize (chunkContent files) = sumSize files /\
  (List.length (chunkContent files) <= List.length files)%nat.
Proof. apply chunkContent_totals. Qed.

(** The first group that the loop closes: the buffered files and the
    longest run of the files to come that keeps the group under the
    ceiling. *)
Lemma groupsFrom_first (rest : list FileObject) :
  forall cur, cur <> [] ->
    exists ext rest',
      rest = ext ++ rest' /\
      groupsFrom cur rest = (cur ++ ext) :: groups rest' /\
      forall e tail, rest = e ++ tail ->
        JS.strlen (render (cur ++ e)) <= maxChunkSize ->
        (List.length e <= List.length ext)%nat.
Proof.
  induction rest as [|f r IH]; intros cur Hcur.
  - exists [], []. repeat split.
    + simpl. rewrite app_nil_r. destruct cur; [congruence | reflexivity].
    + intros e tail He _. symmetry in He. apply app_eq_nil in He as [-> _]. simpl. lia.
  - simpl groupsFrom. destruct (startsNewChunk cur f) eqn:E.
    + exists [], (f :: r). repeat split.
      * rewrite app_nil_r. unfold groups. now rewrite groupsFrom_nil_cons.
      * intros e tail He Hfit. destruct e as [|x e]; [simpl; lia|].
        exfalso. simpl in He. injection He as Hx _. subst x.
        unfold startsNewChunk in E. apply andb_prop in E as [E _].
        apply Z.gtb_lt in E.
        change (f :: e) with ([f] ++ e) in Hfit.
        rewrite !render_app, !strlen_append, render_single in Hfit.
        pose proof (strlen_nonneg (render e)). lia.
    + destruct (IH (cur ++ [f])) as (ext & rest' & Hr & Hg & Hmax).
      { intros H. apply app_eq_nil in H as [_ H]. discriminate H. }
      exists (f :: ext), rest'. repeat split.
      * simpl. now rewrite Hr.
      * rewrite Hg, <- app_assoc. reflexivity.
      * intros e tail He Hfit. destruct e as [|x e]; [simpl; lia|].
        simpl in He. injection He as Hx He. subst x. simpl.
        apply le_n_S. apply (Hmax e tail He).
        now rewrite <- app_assoc.
Qed.

Lemma groups_cons (y : FileObject) (rest : list FileObject) :
  exists ext rest',
    rest = ext ++ rest' /\
    groups (y :: rest) = (y :: ext) :: groups rest' /\
    forall e tail, rest = e ++ tail ->
      JS.strlen (render (y :: e)) <= maxChunkSize ->
      (List.length e <= List.length ext)%nat.
Proof.
  unfold groups at 1. rewrite groupsFrom_nil_cons.
  destruct (groupsFrom_first rest [y]) as (ext & rest' & H1 & H2 & H3); [discriminate|].
  exists ext, rest'. repeat split; assumption.
Qed.

(** The loop stays ahead of any admissible partition. *)
Lemma groups_stay_ahead (P : list (list FileObject)) :
  admissible P ->
  forall D Y, List.concat P = D ++ Y -> (List.length (groups Y) <= List.length P)%nat.
Proof.
  induction 1 as [|p P [Hne Hfit] HP IH]; intros D Y Hcat.
  - simpl in Hcat. symmetry in Hcat. apply app_eq_nil in Hcat as [_ ->]. simpl. lia.
  - simpl in Hcat. apply app_eq_app in Hcat as (l & [[Hp HY]|[HD HP']]).
    + destruct l as [|y e].
      * simpl in HY. specialize (IH [] Y). simpl in IH. specialize (IH (eq_sym HY)).
        simpl. lia.
      * subst Y. simpl app.
        destruct (groups_cons y (e ++ List.concat P)) as (ext & rest' & Hr & Hg & Hmax).
        rewrite Hg. simpl List.length. apply le_n_S.
        assert (List.length e <= List.length ext)%nat as Hle.
        { destruct e as [|x e]; [simpl; lia|].
          apply (Hmax (x :: e) (List.concat P) eq_refl).
          assert (2 <= List.length p)%nat as H2
            by (rewrite Hp, length_app; simpl; lia).
          specialize (Hfit H2). rewrite Hp, render_app, strlen_append in Hfit.
          pose proof (strlen_nonneg (render D)). lia. }
        apply app_eq_app in Hr as (d & [[He Hrest]|[Hext Hc]]).
        -- assert (d = []) as ->.
           { apply (f_equal (@List.length _)) in He. rewrite length_app in He.
             destruct d; [reflexivity | simpl in He; lia]. }
           simpl in Hrest. apply (IH [] rest'). simpl. now rewrite Hrest.
        -- apply (IH d rest'). exact Hc.
    + apply (IH l Y) in HP'. simpl. lia.
Qed.

(** X7. The chunker is frugal: no in-order partition of the files into
    non-empty groups, in which every group of two or more files is under
    the ceiling, has fewer groups than [chunkContent] produces chunks. *)
Theorem chunkContent_fewest_chunks (files : list FileObject)
    (P : list (list FileObject)) :
  List.concat P = files ->
  Forall (fun g => g <> [] /\
                   ((2 <= List.length g)%nat -> JS.strlen (render g) <= maxChunkSize)) P ->
  (List.length (chunkContent files) <= List.length P)%nat.
Proof.
  intros Hcat HP. rewrite chunkContent_groups, length_map.
  apply (groups_stay_ahead P HP [] files). exact Hcat.
Qed.

Lemma chunkContent_fewest_chunks_witness :
  let P := [[Examples.smallA]; [Examples.big]; [Examples.smallB]] in
  List.concat P = [Examples.smallA; Examples.big; Examples.smallB] /\
  (List.length (chunkContent [Examples.smallA; Examples.big; Examples.smallB])
   <= List.length P)%nat.
Proof.
  intros P. split; [reflexivity|].
  apply (chunkContent_fewest_chunks [Examples.smallA; Examples.big; Examples.smallB] P);
    [reflexivity|].
  repeat (constructor;
          [split; [discriminate | intros H; cbn [List.length] in H; lia] |]).
  constructor.
Defined.

End ChunkerMore.


(** * [estimateLanguages] *)

(** ** Objects as maps *)

Section Objects.
Variable V : Type.

Lemma ownProperty_setProperty (k key : string) (v : V) (obj : JS.Obj V) :
  JS.ownProperty k (JS.setProperty key v obj) =
  if String.eqb key k then Some v else JS.ownProperty k obj.
Proof.
  induction obj as [|[k' w] obj IH]; simpl.
  - reflexivity.
  - destruct (String.eqb_spec k' key) as [->|Hne]; simpl.
    + destruct (String.eqb_spec key k); reflexivity.
    + rewrite IH. destruct (String.eqb_spec k' k) as [->|]; [|reflexivity].
      destruct (String.eqb_spec key k); [congruence | reflexivity].
Qed.

Lemma ownProperty_None (k : string) (obj : JS.Obj V) :
  JS.ownProperty k obj = None <-> ~ In k (map fst obj).
Proof.
  induction obj as [|[k' w] obj IH]; simpl; [tauto|].
  destruct (String.eqb_spec k' k); split; intros H; try discriminate; tauto.
Qed.

Lemma In_ownProperty (k : string) (v : V) (obj : JS.Obj V) :
  NoDup (map fst obj) -> In (k, v) obj -> JS.ownProperty k obj = Some v.
Proof.
  induction obj as [|[k' w] obj IH]; simpl; intros Hnd Hin; [contradiction|].
  apply NoDup_cons_iff in Hnd as [Hk Hnd].
  destruct Hin as [[= -> ->]|Hin].
  - now rewrite String.eqb_refl.
  - destruct (String.eqb_spec k' k) as [->|]; [|now apply IH].
    exfalso. apply Hk. change k with (fst (k, v)). now apply in_map.
Qed.

Lemma keys_setProperty (key : string) (v : V) (obj : JS.Obj V) :
  map fst (JS.setProperty key v obj) =
  match JS.ownProperty key obj with
  | Some _ => map fst obj
  | None => map fst obj ++ [key]
  end.
Proof.
  induction obj as [|[k' w] obj IH]; simpl; [reflexivity|].
  destruct (String.eqb_spec k' key); simpl; [reflexivity|].
  rewrite IH. now destruct (JS.ownProperty key obj).
Qed.

Lemma NoDup_setProperty (key : string) (v : V) (obj : JS.Obj V) :
  NoDup (map fst obj) -> NoDup (map fst (JS.setProperty key v obj)).
Proof.
  intros H. rewrite keys_setProperty.
  destruct (JS.ownProperty key obj) eqn:E; [assumption|].
  apply ownProperty_None in E.
  apply NoDup_app; [assumption | repeat constructor; intros [] |].
  intros k Hk [<-|[]]. contradiction.
Qed.

End Objects.

(** ** The counts *)

Lemma countOf_nonneg (language : string) (files : list FileObject) :
  0 <= countOf language files.
Proof. unfold countOf. lia. Qed.

Lemma countOf_app (language : string) (l1 l2 : list FileObject) :
  countOf language (l1 ++ l2) = countOf language l1 + countOf language l2.
Proof. unfold countOf. rewrite filter_app, length_app. lia. Qed.

Lemma countOf_single (language : string) (f : FileObject) :
  countOf language [f] = if countsFor language f then 1 else 0.
Proof. unfold countOf. simpl. now destruct (countsFor language f). Qed.

Lemma countOf_positive (language : string) (files : list FileObject) :
  0 < countOf language files <->
  exists f, In f files /\ languageOf (path f) = Some language.
Proof.
  unfold countOf. split.
  - intros H. destruct (filter (countsFor language) files) as [|f l] eqn:E;
      [simpl in H; lia|].
    assert (In f (filter (countsFor language) files)) as Hf by (rewrite E; now left).
    apply filter_In in Hf as [Hf Hc]. exists f. split; [assumption|].
    unfold countsFor in Hc. destruct (languageOf (path f)); [|discriminate].
    apply String.eqb_eq in Hc. now subst.
  - intros (f & Hf & Hl).
    assert (In f (filter (countsFor language) files)) as Hin.
    { apply filter_In. split; [assumption|]. unfold countsFor. rewrite Hl.
      apply String.eqb_refl. }
    destruct (filter (countsFor language) files); [contradiction | simpl; lia].
Qed.

Lemma countLanguage_counted (seen : list FileObject) (obj : JS.Obj Z) (f : FileObject) :
  counted seen obj -> counted (seen ++ [f]) (countLanguage obj f).
Proof.
  intros [Hnd Hget]. unfold countLanguage. fold (languageOf (path f)).
  destruct (languageOf (path f)) as [key|] eqn:E.
  - split; [now apply NoDup_setProperty|].
    intros k. rewrite ownProperty_setProperty, countOf_app, countOf_single.
    unfold countsFor. rewrite E. pose proof (countOf_nonneg k seen) as Hk.
    destruct (String.eqb_spec key k) as [->|Hne].
    + rewrite Hget. unfold orZero.
      destruct (Z.eqb_spec (countOf k seen) 0) as [H0|H0].
      * rewrite H0. reflexivity.
      * destruct (Z.eqb_spec (countOf k seen) 0); [contradiction|].
        destruct (Z.eqb_spec (countOf k seen + 1) 0); [lia | reflexivity].
    + rewrite Hget, Z.add_0_r. reflexivity.
  - split; [assumption|]. intros k. rewrite countOf_app, countOf_single.
    unfold countsFor. rewrite E, Z.add_0_r. apply Hget.
Qed.

Lemma fold_countLanguage_counted (files : list FileObject) :
  forall seen obj,
    counted seen obj -> counted (seen ++ files) (fold_left countLanguage files obj).
Proof.
  induction files as [|f files IH]; intros seen obj H; simpl.
  - now rewrite app_nil_r.
  - change (f :: files) with ([f] ++ files). rewrite app_assoc.
    apply IH. now apply countLanguage_counted.
Qed.

Lemma languageCounts_counted (files : list FileObject) :
  counted files (fold_left countLanguage files []).
Proof.
  apply (fold_countLanguage_counted files [] []).
  split; [constructor | reflexivity].
Qed.

Lemma byCount_total : JS.total (fun a b : string * Z => snd b - snd a).
Proof. intros a b. lia. Qed.

Lemma byCount_transitive : JS.transitive (fun a b : string * Z => snd b - snd a).
Proof. intros a b c. lia. Qed.

Lemma estimateLanguages_NoDup (files : list FileObject) :
  NoDup (estimateLanguages files).
Proof.
  destruct (languageCounts_counted files) as [Hnd _]. unfold estimateLanguages.
  now apply NoDup_map_sort.
Qed.

Lemma estimateLanguages_In (files : list FileObject) (language : string) :
  In language (estimateLanguages files) <->
  exists f, In f files /\
            languageKey (extensionMapGet (extension (path f))) = Some language.
Proof.
  destruct (languageCounts_counted files) as [Hnd Hget]. unfold estimateLanguages.
  fold (languageOf).
  rewrite <- (countOf_positive language files).
  pose proof (countOf_nonneg language files) as Hpos.
  specialize (Hget language). split.
  - intros Hin. apply in_map_iff in Hin as ([k v] & <- & Hin).
    apply sort_In in Hin. apply (In_ownProperty _ _ _ _ Hnd) in Hin. simpl in *.
    rewrite Hin in Hget. destruct (Z.eqb_spec (countOf k files) 0); [discriminate | lia].
  - intros Hc. destruct (Z.eqb_spec (countOf language files) 0) as [|_]; [lia|].
    destruct (in_dec string_dec language
                (map fst (fold_left countLanguage files []))) as [Hin|Hout].
    + apply in_map_iff in Hin as (e & <- & Hin). apply in_map, sort_In, Hin.
    + apply ownProperty_None in Hout. congruence.
Qed.

(** X8. [estimateLanguages] lists each language once, and lists exactly
    the languages that some file counts for: the value that the extension
    of the path (lower-cased, from the last dot of the whole path) has in
    [extensionMap], inherited properties of the object included. *)
Theorem estimateLanguages_members (files : list FileObject) :
  NoDup (estimateLanguages files) /\
  forall language,
    In language (estimateLanguages files) <->
    exists f, In f files /\
              languageKey (extensionMapGet (extension (path f))) = Some language.
Proof.
  split; [apply estimateLanguages_NoDup | intros language; apply estimateLanguages_In].
Qed.

(** X9. The languages come in descending order of the number of files
    that count for them. *)
Theorem estimateLanguages_by_count (files : list FileObject) :
  StronglySorted (fun a b => countOf b files <= countOf a files)
                 (estimateLanguages files).
Proof.
  destruct (languageCounts_counted files) as [Hnd Hget]. unfold estimateLanguages.
  pose proof (sort_StronglySorted _ _ byCount_total byCount_transitive
                (fold_left countLanguage files [])) as Hs.
  assert (forall e, In e (JS.sort (fun a b : string * Z => snd b - snd a)
                            (fold_left countLanguage files [])) ->
                    snd e = countOf (fst e) files) as Hval.
  { intros [k v] He. apply sort_In in He. apply (In_ownProperty _ _ _ _ Hnd) in He.
    rewrite Hget in He. simpl. destruct (countOf k files =? 0); congruence. }
  induction Hs as [|e l Hs IH Hall]; simpl; constructor.
  - apply IH. intros e' He'. apply Hval. now right.
  - rewrite Forall_forall in Hall |- *. intros k Hk.
    apply in_map_iff in Hk as (e' & <- & He').
    specialize (Hall e' He'). unfold JS.le in Hall.
    rewrite <- (Hval e (or_introl eq_refl)), <- (Hval e' (or_intror He')). lia.
Qed.

(** ** The extension of a path *)

Lemma lastIndexFrom_none (c : ascii) (s : string) :
  forall i found, JS.countChar c s = 0%nat -> JS.lastIndexFrom c i found s = found.
Proof.
  induction s as [|d s IH]; intros i found H; simpl in *; [reflexivity|].
  destruct (Ascii.eqb d c); [discriminate|]. now apply IH.
Qed.

Lemma lastIndexFrom_app (c : ascii) (s1 s2 : string) :
  forall i found,
    JS.lastIndexFrom c i found (s1 ++ s2) =
    JS.lastIndexFrom c (i + JS.strlen s1) (JS.lastIndexFrom c i found s1) s2.
Proof.
  induction s1 as [|d s1 IH]; intros i found; simpl.
  - unfold JS.strlen. simpl. now rewrite Z.add_0_r.
  - rewrite IH. unfold JS.strlen. simpl String.length.
    f_equal. lia.
Qed.

Lemma dropChars_app (s1 s2 : string) :
  JS.dropChars (String.length s1) (s1 ++ s2) = s2.
Proof. induction s1 as [|d s1 IH]; simpl; [now destruct s2 | assumption]. Qed.

Lemma toLowerCase_append (s1 s2 : string) :
  JS.toLowerCase (s1 ++ s2) = (JS.toLowerCase s1 ++ JS.toLowerCase s2)%string.
Proof. induction s1 as [|d s1 IH]; simpl; [reflexivity | now rewrite IH]. Qed.

Lemma extension_after_dot (stem e : string) :
  JS.countChar "." e = 0%nat ->
  extension (stem ++ String "." e) = String "." (JS.toLowerCase e).
Proof.
  intros He. unfold extension, JS.lastIndexOf, JS.substringFrom.
  rewrite lastIndexFrom_app. cbn [JS.lastIndexFrom].
  change (Ascii.eqb "." ".") with true. cbv iota.
  rewrite lastIndexFrom_none by assumption.
  unfold JS.strlen. rewrite Z.add_0_l, Nat2Z.id, dropChars_app. reflexivity.
Qed.

Lemma extension_no_dot (p : string) :
  JS.countChar "." p = 0%nat -> extension p = JS.toLowerCase p.
Proof.
  intros Hp. unfold extension, JS.lastIndexOf, JS.substringFrom.
  rewrite lastIndexFrom_none by assumption. reflexivity.
Qed.

(** X10. The extension is what follows the last dot of the whole path,
    directories included, in lower case: a path [stem.e] whose [e] has no
    dot has the extension [.e] lower-cased, and a path without any dot is
    its own extension. *)
Theorem extension_from_last_dot :
  (forall stem e : string,
     JS.countChar "." e = 0%nat ->
     extension (stem ++ String "." e) = String "." (JS.toLowerCase e)) /\
  (forall p : string, JS.countChar "." p = 0%nat -> extension p = JS.toLowerCase p).
Proof. split; [exact extension_after_dot | exact extension_no_dot]. Qed.

Lemma extension_from_last_dot_witness :
  JS.countChar "." "2/Makefile"%string = 0%nat /\
  extension ("v1" ++ String "." "2/Makefile")%string = String "." (JS.toLowerCase "2/Makefile") /\
  JS.countChar "." "README"%string = 0%nat /\
  extension "README"%string = JS.toLowerCase "README".
Proof.
  assert (JS.countChar "." "2/Makefile"%string = 0%nat) as H1 by reflexivity.
  assert (JS.countChar "." "README"%string = 0%nat) as H2 by reflexivity.
  split; [exact H1|]. split; [|split; [exact H2|]].
  - exact (proj1 extension_from_last_dot "v1"%string "2/Makefile"%string H1).
  - exact (proj2 extension_from_last_dot "README"%string H2).
Defined.

(** ** The analyzer and the languages *)

Lemma endsWith_append (s suf : string) :
  JS.endsWith s suf = true -> exists stem, s = (stem ++ suf)%string.
Proof.
  induction s as [|d s IH]; cbn [JS.endsWith]; intros H; apply orb_prop in H as [H|H].
  - apply String.eqb_eq in H. exists EmptyString. now subst.
  - discriminate H.
  - apply String.eqb_eq in H. exists EmptyString. now subst.
  - destruct (IH H) as [stem ->]. exists (String d stem). reflexivity.
Qed.

(** X11. When [hasTypeScript] holds of the files, [estimateLanguages]
    lists TypeScript for them: a path that ends in [.ts] or [.tsx] has that
    extension. *)
Theorem hasTypeScript_estimated (files : list FileObject) :
  Analyzer.hasTypeScript files = true ->
  In "TypeScript"%string (estimateLanguages files).
Proof.
  unfold Analyzer.hasTypeScript, JS.some. intros H.
  apply existsb_exists in H as (f & Hf & H).
  apply estimateLanguages_In. exists f. split; [assumption|].
  apply orb_prop in H as [H|H]; apply endsWith_append in H as [stem ->].
  - rewrite (extension_after_dot stem "ts" eq_refl). reflexivity.
  - rewrite (extension_after_dot stem "tsx" eq_refl). reflexivity.
Qed.

Lemma hasTypeScript_estimated_witness :
  Analyzer.hasTypeScript [Examples.file "src/lib/github.ts" 10; Examples.file "README.md" 5] = true /\
  In "TypeScript"%string
     (estimateLanguages [Examples.file "src/lib/github.ts" 10; Examples.file "README.md" 5]).
Proof.
  assert (Analyzer.hasTypeScript
            [Examples.file "src/lib/github.ts" 10; Examples.file "README.md" 5] = true) as H
    by reflexivity.
  split; [exact H|].
  exact (hasTypeScript_estimated _ H).
Defined.

(** X12. [tools] holds each of the five known tools at most once, in the
    order ESLint, Prettier, Jest, Docker, Docker Compose whatever the order
    of the files, and it holds ESLint exactly when [hasLinting] is true. *)
Theorem tools_order_and_linting (files : list FileObject) :
  Analyzer.tools files =
    filter (fun t => JS.arrayIncludes (Analyzer.tools files) t) Analyzer.KNOWN_TOOLS /\
  (In "ESLint"%string (Analyzer.tools files) <-> Analyzer.hasLinting files = true).
Proof.
  unfold Analyzer.tools, Analyzer.hasLinting.
  destruct (JS.some _ (Analyzer.fileNames files));
    destruct (JS.some (fun n => JS.startsWith n ".prettierrc") _);
    destruct (JS.some (fun n => JS.includes n "jest.config") _);
    destruct (JS.some (fun n => String.eqb n "Dockerfile") _);
    destruct (JS.some (fun n => String.eqb n "docker-compose.yml") _);
    (split; [reflexivity|]); cbn; split; intros H; try reflexivity; try discriminate H;
    try (now left);
    repeat (destruct H as [H|H]; [discriminate H|]); try contradiction.
Qed.

(** * The client of the inference service *)

Section Client.
Import HuggingFaceAPI.

Context {Value : Type} {runtime : Runtime Value}.

Variable answers : nat -> Outcome Value.

(** The requests of a [try] are those of its body followed by those of
    the branch taken. *)
Lemma run_tryCatch {A B : Type} (p : Run Value A)
    (ok : A -> Run Value B) (failed : string -> Run Value B) :
  forall n,
    run answers n (tryCatch p ok failed) =
    (fst (run answers (n + List.length (snd (run answers n p)))
            (match fst (run answers n p) with inr a => ok a | inl m => failed m end)),
     snd (run answers n p) ++
     snd (run answers (n + List.length (snd (run answers n p)))
            (match fst (run answers n p) with inr a => ok a | inl m => failed m end))).
Proof.
  induction p as [a|m|key pr next IH|sec next IH|text m next IH]; intros n;
    cbn [tryCatch run].
  - cbn [fst snd List.length app]. rewrite Nat.add_0_r. now destruct (run answers n (ok a)).
  - cbn [fst snd List.length app]. rewrite Nat.add_0_r. now destruct (run answers n (failed m)).
  - rewrite (IH (answers n) (S n)).
    destruct (run answers (S n) (next (answers n))) as [res reqs].
    cbn [fst snd List.length app]. now rewrite Nat.add_succ_r.
  - apply IH.
  - apply IH.
Qed.

Lemma run_retried (n : nat) (retry : Outcome Value) :
  snd (run answers n (retried retry)) = [] /\
  forall message, fst (run answers n (retried retry)) = inl message ->
                  message = MODEL_UNAVAILABLE.
Proof.
  unfold retried. destruct retry as [d|r]; [destruct (retryGeneratedText d)|];
    cbn [run fst snd]; (split; [reflexivity|]); intros message H;
    now inversion H.
Qed.

Lemma run_caught (apiKey text : string) (n : nat) (response : option (Response Value)) :
  let R := run answers n (caught apiKey text response) in
  (snd R = [] \/ (snd R = [(apiKey, text)] /\
                  exists r, response = Some r /\ status r = 503)) /\
  forall message, fst R = inl message -> In message ERROR_MESSAGES.
Proof.
  unfold caught. destruct response as [r|].
  - destruct (Z.eqb_spec (status r) 503) as [H503|_].
    + destruct (lessThan _ _).
      * cbn [run]. pose proof (run_retried (S n) (answers n)) as [Hreq Hmsg].
        destruct (run answers (S n) (retried (answers n))) as [res reqs].
        cbn [fst snd] in *. subst reqs. split.
        -- right. split; [reflexivity|]. now exists r.
        -- intros message H. rewrite (Hmsg message H). cbn. tauto.
      * cbn. split; [now left|]. intros message H. inversion H. tauto.
    + destruct (status r =? 429); [|destruct ((status r =? 401) || (status r =? 403))];
        cbn; (split; [now left|]); intros message H; inversion H; tauto.
  - cbn. split; [now left|]. intros message H. inversion H. tauto.
Qed.

Lemma run_callHuggingFaceAPI (environment : option string) (text : string) (n : nat) :
  let R := run answers n (callHuggingFaceAPI environment text) in
  (List.length (snd R) <= 2)%nat /\
  Forall (fun request => environment = Some (fst request) /\ snd request = text) (snd R) /\
  (forall message, fst R = inl message -> In message ERROR_MESSAGES) /\
  (configured environment = false -> R = (inl NOT_CONFIGURED, [])) /\
  (configured environment = true -> snd R <> []) /\
  (List.length (snd R) = 2%nat -> modelLoading (answers n)).
Proof.
  unfold callHuggingFaceAPI, configured.
  assert (forall A (m : string),
            let R := run (A:=A) answers n (Throw m) in
            m = NOT_CONFIGURED ->
            (List.length (snd R) <= 2)%nat /\
            Forall (fun request => environment = Some (fst request) /\ snd request = text)
                   (snd R) /\
            (forall message, fst R = inl message -> In message ERROR_MESSAGES) /\
            (R = (inl NOT_CONFIGURED, [])) /\
            (List.length (snd R) = 2%nat -> modelLoading (answers n))) as Hthrow.
  { intros A m R ->. subst R. cbn [run fst snd List.length].
    split; [lia|]. split; [constructor|]. split; [|split; [reflexivity|discriminate]].
    intros message H. inversion H. cbn. tauto. }
  destruct environment as [apiKey|].
  - destruct (String.eqb apiKey EmptyString) eqn:Hkey.
    + destruct (Hthrow Value NOT_CONFIGURED eq_refl) as (H1 & H2 & H3 & H4 & H5).
      cbn [negb]. repeat split; try assumption; discriminate.
    + cbn [negb run].
      assert (let R := run answers (S n) (attempted apiKey text (answers n)) in
              (snd R = [] \/ (snd R = [(apiKey, text)] /\ modelLoading (answers n))) /\
              forall message, fst R = inl message -> In message ERROR_MESSAGES) as Hatt.
      { unfold attempted. destruct (answers n) as [d|response] eqn:Hfirst.
        - destruct (generatedText d).
          + cbn. split; [now left|]. discriminate.
          + pose proof (run_caught apiKey text (S n) None) as [[Hreq|(_ & r & Hr & _)] Hmsg].
            * split; [now left | exact Hmsg].
            * discriminate Hr.
        - pose proof (run_caught apiKey text (S n) response) as [[Hreq|(Hreq & r & Hr & Hs)] Hmsg].
          + split; [now left | exact Hmsg].
          + split; [|exact Hmsg]. right. split; [exact Hreq|].
            exists r. now subst response. }
      destruct (run answers (S n) (attempted apiKey text (answers n))) as [res reqs].
      cbn [fst snd] in *. destruct Hatt as [[->|[-> Hload]] Hmsg]; cbn [List.length];
        (split; [lia|]); (split; [repeat constructor|]); (split; [exact Hmsg|]);
        (split; [discriminate|]); (split; [discriminate|]); intros H;
        [discriminate H | exact Hload].
  - destruct (Hthrow Value NOT_CONFIGURED eq_refl) as (H1 & H2 & H3 & H4 & H5).
    repeat split; try assumption; discriminate.
Qed.

(** X13. One call of [callHuggingFaceAPI], whatever the service answers:
    it makes at most two requests, each with the configured key and the
    prompt of the call; a second request is made only after the first was
    refused with status 503; an error thrown carries one of five fixed
    messages; and without a key, unset or empty, no request is made and the
    error is that the key is not configured. *)
Theorem callHuggingFaceAPI_requests_and_errors
    (environment : option string) (text : string) :
  (List.length (snd (run answers 0 (callHuggingFaceAPI environment text))) <= 2)%nat /\
  Forall (fun request => environment = Some (fst request) /\ snd request = text)
         (snd (run answers 0 (callHuggingFaceAPI environment text))) /\
  (forall message,
     fst (run answers 0 (callHuggingFaceAPI environment text)) = inl message ->
     In message ERROR_MESSAGES) /\
  (configured environment = false ->
     run answers 0 (callHuggingFaceAPI environment text) = (inl NOT_CONFIGURED, [])) /\
  (List.length (snd (run answers 0 (callHuggingFaceAPI environment text))) = 2%nat ->
     modelLoading (answers 0)).
Proof.
  pose proof (run_callHuggingFaceAPI environment text 0) as (H1 & H2 & H3 & H4 & _ & H6).
  split; [exact H1|]. split; [exact H2|]. split; [exact H3|]. split; [exact H4 | exact H6].
Qed.

(** The loop, from any state of [responses]. *)
Lemma run_analyzeFrom (environment : option string) (chunks : list ContentChunk.t) :
  forall (responses : list Value) (n : nat),
    exists added,
      fst (run answers n (analyzeFrom environment chunks responses))
        = inr (responses ++ added) /\
      (List.length added <= List.length chunks)%nat /\
      Forall (fun r => truthy r = true \/ r = ofString SECTION_UNAVAILABLE) added /\
      (List.length (snd (run answers n (analyzeFrom environment chunks responses)))
         <= 2 * List.length chunks)%nat /\
      Forall (fun request => environment = Some (fst request) /\
                             In (snd request) (map prompt chunks))
             (snd (run answers n (analyzeFrom environment chunks responses))) /\
      (configured environment = false ->
         added = map (fun _ => ofString SECTION_UNAVAILABLE) chunks /\
         snd (run answers n (analyzeFrom environment chunks responses)) = []).
Proof.
  induction chunks as [|chunk rest IH]; intros responses n.
  - exists []. cbn [analyzeFrom run fst snd List.length map]. rewrite app_nil_r.
    repeat split; try constructor; lia.
  - cbn [analyzeFrom]. rewrite run_tryCatch.
    pose proof (run_callHuggingFaceAPI environment (prompt chunk) n)
      as (Hlen & Hreq & _ & Hnokey & _ & _).
    destruct (run answers n (callHuggingFaceAPI environment (prompt chunk)))
      as [[message|response] requests].
    + cbn [fst snd] in *. cbn [run].
      destruct (IH (responses ++ [ofString SECTION_UNAVAILABLE])
                   (n + List.length requests)%nat)
        as (added & Hres & Hadded & Hall & Hnum & Hfrom & Hnone).
      exists (ofString SECTION_UNAVAILABLE :: added).
      split; [rewrite Hres, <- app_assoc; reflexivity|].
      split; [cbn [List.length]; lia|].
      split; [constructor; [now right | exact Hall]|].
      split; [rewrite length_app; cbn [List.length]; lia|].
      split.
      * apply Forall_app. split.
        -- eapply Forall_impl; [|exact Hreq]. intros q [Hk Hp].
           split; [exact Hk | left; now rewrite Hp].
        -- eapply Forall_impl; [|exact Hfrom]. intros q [Hk Hp].
           split; [exact Hk | right; exact Hp].
      * intros Hno. destruct (Hnone Hno) as [-> Hreqs]. rewrite Hreqs.
        specialize (Hnokey Hno). injection Hnokey as _ ->. split; reflexivity.
    + cbn [fst snd] in *.
      destruct (IH (if truthy response then responses ++ [response] else responses)
                   (n + List.length requests)%nat)
        as (added & Hres & Hadded & Hall & Hnum & Hfrom & Hnone).
      exists (if truthy response then response :: added else added).
      split.
      { rewrite Hres. destruct (truthy response); [rewrite <- app_assoc|]; reflexivity. }
      split; [destruct (truthy response); cbn [List.length]; lia|].
      split.
      { destruct (truthy response) eqn:Ht; [constructor; [now left | exact Hall] | exact Hall]. }
      split; [rewrite length_app; cbn [List.length]; lia|].
      split.
      * apply Forall_app. split.
        -- eapply Forall_impl; [|exact Hreq]. intros q [Hk Hp].
           split; [exact Hk | left; now rewrite Hp].
        -- eapply Forall_impl; [|exact Hfrom]. intros q [Hk Hp].
           split; [exact Hk | right; exact Hp].
      * intros Hno. specialize (Hnokey Hno). discriminate Hnokey.
Qed.

(** X14. [analyzeWithHuggingFace] never fails, whatever the service
    answers: it returns at most one response per chunk, each of them a
    truthy value or the text that the analysis is unavailable for the
    section; it makes at most two requests per chunk, each with the
    configured key and the prompt of one of the chunks. *)
Theorem analyzeWithHuggingFace_never_fails
    (environment : option string) (chunks : list ContentChunk.t) :
  exists responses,
    fst (run answers 0 (analyzeWithHuggingFace environment chunks)) = inr responses /\
    (List.length responses <= List.length chunks)%nat /\
    Forall (fun r => truthy r = true \/ r = ofString SECTION_UNAVAILABLE) responses /\
    (List.length (snd (run answers 0 (analyzeWithHuggingFace environment chunks)))
       <= 2 * List.length chunks)%nat /\
    Forall (fun request => environment = Some (fst request) /\
                           In (snd request) (map prompt chunks))
           (snd (run answers 0 (analyzeWithHuggingFace environment chunks))).
Proof.
  unfold analyzeWithHuggingFace.
  destruct (run_analyzeFrom environment chunks [] 0)
    as (added & Hres & Hadded & Hall & Hnum & Hfrom & _).
  exists added. split; [exact Hres|]. split; [exact Hadded|]. split; [exact Hall|].
  split; [exact Hnum | exact Hfrom].
Qed.

(** X15. Without a key, unset or empty, [analyzeWithHuggingFace] makes no
    request and returns the text that the analysis is unavailable once for
    every chunk. *)
Theorem analyzeWithHuggingFace_without_key
    (environment : option string) (chunks : list ContentChunk.t) :
  configured environment = false ->
  run answers 0 (analyzeWithHuggingFace environment chunks) =
    (inr (map (fun _ => ofString SECTION_UNAVAILABLE) chunks), []).
Proof.
  intros Hno. unfold analyzeWithHuggingFace.
  destruct (run_analyzeFrom environment chunks [] 0)
    as (added & Hres & _ & _ & _ & _ & Hnone).
  destruct (Hnone Hno) as [Hadded Hreqs].
  destruct (run answers 0 (analyzeFrom environment chunks [])) as [res reqs].
  cbn [fst snd] in *. now subst.
Qed.

(** X16. The route chunks the selected files and analyzes the chunks.
    Without a file over the per-file cap, whatever the service answers:
    the [totalSize] fields of the chunks sum to at most [MAX_TOTAL_CONTENT];
    the analysis makes at most two requests per selected file, and returns
    at most one response per selected file. *)
Theorem analysis_of_selection_bounded
    (localeCompare : string -> string -> Z) (files : list FileObject)
    (environment : option string) :
  Forall (fun f => size f <= MAX_FILE_SIZE) files ->
  HuggingFace.sumTotalSize (HuggingFace.chunkContent (selectKeyFiles localeCompare files))
    <= MAX_TOTAL_CONTENT /\
  (List.length
     (snd (run answers 0
             (analyzeWithHuggingFace environment
                (HuggingFace.chunkContent (selectKeyFiles localeCompare files)))))
     <= 2 * List.length (selectKeyFiles localeCompare files))%nat /\
  exists responses,
    fst (run answers 0
           (analyzeWithHuggingFace environment
              (HuggingFace.chunkContent (selectKeyFiles localeCompare files))))
      = inr responses /\
    (List.length responses <= List.length (selectKeyFiles localeCompare files))%nat.
Proof.
  intros Hsmall.
  destruct (selectKeyFiles_under_cap localeCompare files Hsmall) as [Hcap _].
  destruct (chunkContent_totals (selectKeyFiles localeCompare files)) as (_ & Hsum & Hlen).
  unfold analyzeWithHuggingFace.
  destruct (run_analyzeFrom environment
              (HuggingFace.chunkContent (selectKeyFiles localeCompare files)) [] 0)
    as (added & Hres & Hadded & _ & Hnum & _ & _).
  split; [rewrite Hsum; exact Hcap|]. split; [lia|].
  exists added. split; [exact Hres | lia].
Qed.

End Client.

#[local] Existing Instance Examples.jsonRuntime.

(** A run of the examples: the model is loading, the client waits the
    default 20 seconds and asks again. *)
Example callHuggingFaceAPI_retries :
  HuggingFaceAPI.callHuggingFaceAPI (runtime := Examples.jsonRuntime)
    (Some "hf_key"%string) "prompt"%string
  = HuggingFaceAPI.Post "hf_key" "prompt"
      (HuggingFaceAPI.attempted "hf_key" "prompt") /\
  HuggingFaceAPI.attempted "hf_key" "prompt" (Examples.loadingThenText 0)
  = HuggingFaceAPI.Wait (Examples.JNumber 20)
      (HuggingFaceAPI.Post "hf_key" "prompt" HuggingFaceAPI.retried) /\
  HuggingFaceAPI.run Examples.loadingThenText 0
    (HuggingFaceAPI.callHuggingFaceAPI (runtime := Examples.jsonRuntime)
       (Some "hf_key"%string) "prompt"%string)
  = (inr (Examples.JString "- TypeScript"),
     [("hf_key", "prompt"); ("hf_key", "prompt")]%string).
Proof. repeat split. Qed.

Lemma analysis_of_selection_bounded_witness :
  Forall (fun f => size f <= MAX_FILE_SIZE) Examples.rejectionThenFit /\
  HuggingFace.sumTotalSize
    (HuggingFace.chunkContent (selectKeyFiles codeUnitCompare Examples.rejectionThenFit))
    <= MAX_TOTAL_CONTENT.
Proof.
  assert (Forall (fun f => size f <= MAX_FILE_SIZE) Examples.rejectionThenFit) as H
    by (repeat constructor; vm_compute; discriminate).
  split; [exact H|].
  exact (proj1 (analysis_of_selection_bounded (runtime := Examples.jsonRuntime)
                  Examples.loadingThenText codeUnitCompare Examples.rejectionThenFit
                  (Some "hf_key"%string) H)).
Defined.

Lemma analyzeWithHuggingFace_without_key_witness :
  HuggingFaceAPI.configured (Some EmptyString) = false /\
  HuggingFaceAPI.run Examples.loadingThenText 0
    (HuggingFaceAPI.analyzeWithHuggingFace (runtime := Examples.jsonRuntime)
       (Some EmptyString) Examples.twoChunks) =
    (inr (map (fun _ => Examples.JString HuggingFaceAPI.SECTION_UNAVAILABLE)
              Examples.twoChunks), []).
Proof.
  assert (HuggingFaceAPI.configured (Some EmptyString) = false) as H by reflexivity.
  split; [exact H|].
  exact (analyzeWithHuggingFace_without_key (runtime := Examples.jsonRuntime)
           Examples.loadingThenText (Some EmptyString) Examples.twoChunks H).
Defined.
